(** * modal-examples: the Flux Dreambooth sweep and the Boltz-1 folding runner

    A shallow embedding of the two example scripts

      - [06_gpu_and_ml/dreambooth/dreambooth_app_no_lora.py]
      - [06_gpu_and_ml/protein-folding/boltz1.py]

    Python functions become Rocq functions.  Code that prints, spawns
    processes, calls remote functions or raises is written in a small
    writer/exception monad: a computation yields the list of effects it
    performed, in order, and either a returned value or a raised exception.
    The parts of the Python runtime the scripts rely on ([str] of an [int],
    [str.split], [pathlib], [os.path], [os.walk], [shlex]) are modelled in
    the first modules, following CPython's behaviour on POSIX. *)

From Stdlib Require Import ZArith List String Ascii Bool Lia.
From Stdlib Require Import DecimalString DecimalZ.
Import ListNotations.

Local Open Scope list_scope.
Local Open Scope string_scope.

Set Warnings "-register-all".

(* ================================================================== *)
(** ** Python values, exceptions and effects *)
(* ================================================================== *)

Module Py.

(** The two kinds of value that end up in [CalledProcessError.returncode]:
    a [bool] is a subclass of [int] in Python, [True == 1], [False == 0]. *)
Inductive value :=
| PyInt (z : Z)
| PyBool (b : bool).

Definition int_of_value (v : value) : Z :=
  match v with
  | PyInt z => z
  | PyBool true => 1%Z
  | PyBool false => 0%Z
  end.

(** Python's [==] on these values. *)
Definition py_eq (v w : value) : bool := Z.eqb (int_of_value v) (int_of_value w).

(** Truthiness, as tested by [if v:]. *)
Definition truthy (v : value) : bool := negb (Z.eqb (int_of_value v) 0).

(** The [cmd] attribute of a [CalledProcessError]: a string or an argument list. *)
Inductive cmdline :=
| CmdStr (s : string)
| CmdList (argv : list string).

Inductive exn :=
| CalledProcessError (returncode : value) (cmd : cmdline)
| TypeError (msg : string)
| ValueError (msg : string)
| IndexError (msg : string)
| FileNotFoundError (path : string)
| StructError (msg : string).

Inductive result (A : Type) :=
| Return (a : A)
| Raise (e : exn).
Arguments Return {A} a.
Arguments Raise {A} e.

Definition is_raise {A} (r : result A) : bool :=
  match r with Raise _ => true | Return _ => false end.

(** A computation over effects of type [E]: the effects performed so far,
    oldest first, and the outcome. *)
Definition M (E A : Type) : Type := (list E * result A)%type.

Definition ret {E A} (a : A) : M E A := ([], Return a).
Definition raise {E A} (e : exn) : M E A := ([], Raise e).
Definition emit {E} (e : E) : M E unit := ([e], Return tt).
Definition lift {E A} (r : result A) : M E A := ([], r).

Definition bind {E A B} (m : M E A) (k : A -> M E B) : M E B :=
  match m with
  | (l, Return a) => let (l', r) := k a in ((l ++ l')%list, r)
  | (l, Raise e) => (l, Raise e)
  end.

Definition effects {E A} (m : M E A) : list E := fst m.
Definition outcome {E A} (m : M E A) : result A := snd m.

(** [for x in xs: body x] *)
Fixpoint for_each {E A} (xs : list A) (body : A -> M E unit) : M E unit :=
  match xs with
  | [] => ret tt
  | x :: xs' => bind (body x) (fun _ => for_each xs' body)
  end.

(** [str(n)] for an [int]: optional minus sign and decimal digits. *)
Definition str_of_int (z : Z) : string := NilEmpty.string_of_int (Z.to_int z).

(** [sep.join(xs)] *)
Definition join (sep : string) (xs : list string) : string := String.concat sep xs.

(** [s.split(sep)] for a one-character separator: never the empty list. *)
Fixpoint split_on (sep : ascii) (s : string) : list string :=
  match s with
  | EmptyString => [EmptyString]
  | String c s' =>
      if Ascii.eqb c sep then EmptyString :: split_on sep s'
      else match split_on sep s' with
           | h :: t => String c h :: t
           | [] => [String c EmptyString]
           end
  end.

(** [c in s] for a character. *)
Fixpoint mem_char (c : ascii) (s : string) : bool :=
  match s with
  | EmptyString => false
  | String d s' => Ascii.eqb c d || mem_char c s'
  end.

(** [s.startswith(p)] *)
Definition startswith (p s : string) : bool := String.prefix p s.

Definition nl : string := String (ascii_of_nat 10) EmptyString.

End Py.

Module PyNotations.
Notation "x <- c ;; k" := (Py.bind c (fun x => k))
  (at level 61, c at next level, right associativity).
Notation "c ;; k" := (Py.bind c (fun _ => k))
  (at level 61, right associativity).
End PyNotations.
Import PyNotations.

(* ================================================================== *)
(** ** [pathlib.PurePosixPath] *)
(* ================================================================== *)

Module Pathlib.
Import Py.

(** A parsed path: the root ([""], ["/"] or ["//"]) and the components
    after it.  [pathlib] keeps no empty and no ["."] component. *)
Record Path := mkPath { root : string; parts : list string }.

Fixpoint lstrip_slash (s : string) : string :=
  match s with
  | String "/" s' => lstrip_slash s'
  | _ => s
  end.

(** [_PosixFlavour.splitroot]: exactly two leading slashes are kept as ["//"]. *)
Definition splitroot (part : string) : string * string :=
  if startswith "/" part then
    let stripped := lstrip_slash part in
    if Nat.eqb (String.length part - String.length stripped) 2
    then ("//", stripped) else ("/", stripped)
  else ("", part).

Definition keep_comp (x : string) : bool :=
  negb (String.eqb x "") && negb (String.eqb x ".").

(** [Path(s)] for a string [s]. *)
Definition parse (s : string) : Path :=
  let (r, rel) := splitroot s in
  mkPath r (filter keep_comp (split_on "/" rel)).

(** [Path(v)] where [v] may be [None]: [pathlib] rejects [None]. *)
Definition Path_of (v : option string) : result Path :=
  match v with
  | Some s => Return (parse s)
  | None => Raise (TypeError "expected str, bytes or os.PathLike object, not NoneType")
  end.

(** [p / s]: an absolute right operand replaces the left one. *)
Definition truediv (p : Path) (s : string) : Path :=
  let q := parse s in
  if String.eqb (root q) "" then mkPath (root p) (parts p ++ parts q)%list else q.

(** [str(p)] *)
Definition str (p : Path) : string :=
  let s := root p ++ join "/" (parts p) in
  if String.eqb s "" then "." else s.

(** [p.name]: the final component, [""] if there is none. *)
Definition name (p : Path) : string := last (parts p) "".

(** [p.parent] *)
Definition parent (p : Path) : Path := mkPath (root p) (removelast (parts p)).

(** [s.rfind(".")] *)
Fixpoint rfind_dot (s : string) : option nat :=
  match s with
  | EmptyString => None
  | String c s' =>
      match rfind_dot s' with
      | Some i => Some (S i)
      | None => if Ascii.eqb c "." then Some 0 else None
      end
  end.

(** [p.suffix]: from the last dot of the name, unless that dot is the
    first or the last character. *)
Definition suffix (p : Path) : string :=
  let n := name p in
  match rfind_dot n with
  | Some i =>
      if Nat.ltb 0 i && Nat.ltb i (String.length n - 1)
      then String.substring i (String.length n - i) n else ""
  | None => ""
  end.

(** [p.with_suffix("")]: drops the suffix; an empty name is an error. *)
Definition with_suffix_empty (p : Path) : result Path :=
  let n := name p in
  if String.eqb n "" then Raise (ValueError "path has an empty name")
  else
    let n' := String.substring 0 (String.length n - String.length (suffix p)) n in
    Return (mkPath (root p) (removelast (parts p) ++ [n'])%list).

(** [..] steps of [realpath] when no component is a symbolic link: a [..]
    drops the last component kept so far, and stays at the root there. *)
Fixpoint collapse (stack comps : list string) : list string :=
  match comps with
  | [] => rev stack
  | c :: cs =>
      if String.eqb c ".." then collapse (tl stack) cs
      else collapse (c :: stack) cs
  end.

(** [p.resolve()] in working directory [cwd] (its components), without
    symbolic links. *)
Definition resolve (cwd : list string) (p : Path) : Path :=
  mkPath "/" (collapse [] (if String.eqb (root p) "" then (cwd ++ parts p)%list else parts p)).

End Pathlib.

(* ================================================================== *)
(** ** Facts about strings *)
(* ================================================================== *)

Module StrFacts.
Import Py.

Lemma append_nil_r (s : string) : s ++ "" = s.
Proof. induction s as [|c s IH]; simpl; [reflexivity | now rewrite IH]. Qed.

Lemma append_assoc (a b c : string) : (a ++ b) ++ c = a ++ (b ++ c).
Proof. induction a as [|x a IH]; simpl; [reflexivity | now rewrite IH]. Qed.

Lemma append_inv_head (a b c : string) : a ++ b = a ++ c -> b = c.
Proof.
  induction a as [|x a IH]; simpl; intros H; [exact H|].
  injection H as H. now apply IH.
Qed.

Lemma mem_char_app c a b : mem_char c (a ++ b) = mem_char c a || mem_char c b.
Proof.
  induction a as [|x a IH]; simpl; [reflexivity|].
  now rewrite IH, orb_assoc.
Qed.

(** A string without the separator is one field. *)
Lemma split_on_absent sep s : mem_char sep s = false -> split_on sep s = [s].
Proof.
  induction s as [|c s IH]; simpl; intros H; [reflexivity|].
  apply orb_false_elim in H as [Hc Hs].
  rewrite Ascii.eqb_sym in Hc. rewrite Hc, (IH Hs). reflexivity.
Qed.

Lemma split_on_nonnil sep s : split_on sep s <> [].
Proof.
  destruct s as [|c s]; simpl; [discriminate|].
  destruct (Ascii.eqb c sep); [discriminate|].
  destruct (split_on sep s); discriminate.
Qed.

(** Splitting distributes over a separator between two strings. *)
Lemma split_on_app sep a b :
  split_on sep (a ++ String sep b) = (split_on sep a ++ split_on sep b)%list.
Proof.
  induction a as [|c a IH]; simpl.
  - now rewrite Ascii.eqb_refl.
  - destruct (Ascii.eqb c sep); [now rewrite IH|].
    rewrite IH.
    destruct (split_on sep a) as [|h t] eqn:E; [|reflexivity].
    now apply split_on_nonnil in E.
Qed.

(** Two strings [a ++ sep :: b] with no separator in the left parts agree
    only if both parts agree. *)
Lemma append_sep_inj sep a a' b b' :
  mem_char sep a = false -> mem_char sep a' = false ->
  a ++ String sep b = a' ++ String sep b' -> a = a' /\ b = b'.
Proof.
  revert a'. induction a as [|c a IH]; intros [|c' a'] Ha Ha' H; simpl in *.
  - injection H as H. now split.
  - injection H as Hc _. subst c'. now rewrite Ascii.eqb_refl in Ha'.
  - injection H as Hc _. subst c. now rewrite Ascii.eqb_refl in Ha.
  - injection H as Hc H. subst c'.
    apply orb_false_elim in Ha as [_ Ha]. apply orb_false_elim in Ha' as [_ Ha'].
    destruct (IH a' Ha Ha' H) as [-> ->]. now split.
Qed.

End StrFacts.

(* ================================================================== *)
(** ** dreambooth_app_no_lora.py *)
(* ================================================================== *)

Module Dreambooth.
Import Py.

(** *** Configuration *)

Definition MODEL_DIR : string := "/model".
Definition USE_WANDB : bool := true.

(** [SweepConfig], with the fields it inherits from [TrainConfig] and
    [SharedConfig].  The float field [learning_rate] is left out: no
    function below reads it. *)
Record SweepConfig := mkSweepConfig {
  instance_name : string;
  class_name : string;
  sc_model_name : string;
  sc_dataset_name : string;
  sc_caption_column : string;
  sc_instance_prompt : string;
  prefix : string;
  postfix : string;
  sc_resolution : Z;
  sc_train_batch_size : Z;
  sc_rank : Z;
  sc_gradient_accumulation_steps : Z;
  sc_lr_scheduler : string;
  sc_lr_warmup_steps : Z;
  sc_max_train_steps : Z;
  sc_checkpointing_steps : Z;
  sc_seed : Z;
  train_steps : list Z;
  ranks : list Z;
  threedicon_test_prompts : list string;
  heroicon_test_prompts : list string
}.

(** [SweepConfig()] *)
Definition SweepConfig_default : SweepConfig := {|
  instance_name := "Heroicon";
  class_name := "style";
  sc_model_name := "black-forest-labs/FLUX.1-dev";
  sc_dataset_name := "yirenlu/heroicons-subset-25-images";
  sc_caption_column := "text";
  sc_instance_prompt := "an HCON, in the style of TOK";
  prefix := "";
  postfix := "";
  sc_resolution := 512;
  sc_train_batch_size := 1;
  sc_rank := 16;
  sc_gradient_accumulation_steps := 1;
  sc_lr_scheduler := "constant";
  sc_lr_warmup_steps := 0;
  sc_max_train_steps := 2000;
  sc_checkpointing_steps := 1000;
  sc_seed := 0;
  train_steps := [2000; 3000; 4000]%Z;
  ranks := [8]%Z;
  threedicon_test_prompts :=
    [ "3d icon of the nike logo in the style of TOK";
      "3d icon of a mcdonalds sign in the style of TOK";
      "3d icon of a Google sign in the style of TOK";
      "3d icon of the mercedes benz sign in the style of TOK" ];
  heroicon_test_prompts :=
    [ "An HCON, a black and white minimalist icon that represents the international monetary system";
      "An HCON, a black and white minimalist icon of a macbook pro laptop";
      "An HCON, a black and white minimalist icon of a tiara";
      "An HCON, a black and white minimalist icon of mountain peaks";
      "An HCON, a black and white minimalist icon of that represents a bank account" ]
|}.

(** The configuration record built by the sweep: one field per key of
    the dictionary literal. *)
Record Config := mkConfig {
  max_train_steps : Z;
  rank : Z;
  model_name : string;
  instance_prompt : string;
  dataset_name : string;
  caption_column : string;
  resolution : Z;
  train_batch_size : Z;
  gradient_accumulation_steps : Z;
  lr_scheduler : string;
  lr_warmup_steps : Z;
  checkpointing_steps : Z;
  seed : Z;
  output_dir : Pathlib.Path
}.

(** *** Sweep generation *)

(** [itertools.product(xs, ys)]: the left list varies slowest. *)
Definition product {A B} (xs : list A) (ys : list B) : list (A * B) :=
  flat_map (fun x => map (fun y => (x, y)) ys) xs.

(** [f"steps_{steps}_rank_{rank}"] *)
Definition steps_rank_name (steps rank : Z) : string :=
  "steps_" ++ str_of_int steps ++ "_rank_" ++ str_of_int rank.

(** The dictionary built for one [(steps, rank)] pair. *)
Definition sweep_record (sweep_config : SweepConfig) (steps rank : Z) : Config := {|
  max_train_steps := steps;
  rank := rank;
  model_name := sc_model_name sweep_config;
  instance_prompt := sc_instance_prompt sweep_config;
  dataset_name := sc_dataset_name sweep_config;
  caption_column := sc_caption_column sweep_config;
  resolution := sc_resolution sweep_config;
  train_batch_size := sc_train_batch_size sweep_config;
  gradient_accumulation_steps := sc_gradient_accumulation_steps sweep_config;
  lr_scheduler := sc_lr_scheduler sweep_config;
  lr_warmup_steps := sc_lr_warmup_steps sweep_config;
  checkpointing_steps := sc_checkpointing_steps sweep_config;
  seed := sc_seed sweep_config;
  output_dir := Pathlib.truediv (Pathlib.parse MODEL_DIR) (steps_rank_name steps rank)
|}.

Definition generate_sweep_configs (sweep_config : SweepConfig) : list Config :=
  let param_combinations :=
    product (train_steps sweep_config) (ranks sweep_config) in
  map (fun '(steps, rank) => sweep_record sweep_config steps rank) param_combinations.

(** *** Training *)

Inductive event :=
| Print (text : string) (end_ : string)
| WriteBasicConfig (mixed_precision : string)
| Popen (cmd : list string)
| VolumeCommit.

(** The command line [train] hands to [_exec_subprocess]. *)
Definition train_cmd (config : Config) : list string :=
  List.app
   [ "accelerate";
     "launch";
     "examples/dreambooth/train_dreambooth_flux.py";
     "--mixed_precision=bf16";
     "--pretrained_model_name_or_path=" ++ model_name config;
     "--dataset_name=" ++ dataset_name config;
     "--caption_column=" ++ caption_column config;
     "--output_dir=" ++ Pathlib.str (output_dir config);
     "--instance_prompt=" ++ instance_prompt config;
     "--resolution=" ++ str_of_int (resolution config);
     "--train_batch_size=" ++ str_of_int (train_batch_size config);
     "--gradient_accumulation_steps=" ++ str_of_int (gradient_accumulation_steps config);
     "--optimizer='prodigy'";
     "--learning_rate=1.";
     "--lr_scheduler=" ++ lr_scheduler config;
     "--lr_warmup_steps=" ++ str_of_int (lr_warmup_steps config);
     "--max_train_steps=" ++ str_of_int (max_train_steps config);
     "--checkpointing_steps=" ++ str_of_int (checkpointing_steps config);
     "--seed=" ++ str_of_int (seed config) ]
   (if USE_WANDB then ["--report_to=wandb"] else []).

Section Train.

(** The child process: for a command line, the lines it writes to its
    merged output stream (decoded, each with its line end) and the
    status [process.wait()] returns. *)
Variable child : list string -> list string * Z.

(** The walrus binds looser than the comparison:
    [exitcode := process.wait() != 0] names the Boolean
    [process.wait() != 0], and that Boolean goes into the error. *)
Definition _exec_subprocess (cmd : list string) : M event unit :=
  emit (Popen cmd) ;;
  let (lines, status) := child cmd in
  for_each lines (fun line_str => emit (Print line_str "")) ;;
  let exitcode := PyBool (negb (Z.eqb status 0)) in
  if truthy exitcode
  then raise (CalledProcessError exitcode (CmdStr (join nl cmd)))
  else ret tt.

Definition train (config : Config) : M event Config :=
  emit (WriteBasicConfig "bf16") ;;
  emit (Print "launching dreambooth training script" nl) ;;
  _exec_subprocess (train_cmd config) ;;
  emit VolumeCommit ;;
  ret config.

End Train.

(** *** Evaluation lookups *)

(** The directory name [run] hands to [evaluate_model] for a record
    returned by [train]. *)
Definition run_model_dir (config : Config) : string :=
  "steps_" ++ str_of_int (max_train_steps config) ++ "_rank_" ++ str_of_int (rank config).

(** The path [Model.load_model] loads the weights from:
    [f"{MODEL_DIR}/{self.hyperparameter_model_dir}"]. *)
Definition load_model_path (hyperparameter_model_dir : string) : string :=
  MODEL_DIR ++ "/" ++ hyperparameter_model_dir.

(** *** Web interface *)

Record AppConfig := mkAppConfig {
  app_instance_name : string;
  app_class_name : string;
  app_model_name : string;
  num_inference_steps : Z;
  guidance_scale : Z
}.

(** [AppConfig()] *)
Definition AppConfig_default : AppConfig := {|
  app_instance_name := "Heroicon";
  app_class_name := "style";
  app_model_name := "black-forest-labs/FLUX.1-dev";
  num_inference_steps := 25;
  guidance_scale := 6
|}.

Definition is_lower (c : ascii) : bool :=
  let n := nat_of_ascii c in Nat.leb 97 n && Nat.leb n 122.
Definition is_upper (c : ascii) : bool :=
  let n := nat_of_ascii c in Nat.leb 65 n && Nat.leb n 90.
Definition to_upper (c : ascii) : ascii :=
  if is_lower c then ascii_of_nat (nat_of_ascii c - 32) else c.
Definition to_lower (c : ascii) : ascii :=
  if is_upper c then ascii_of_nat (nat_of_ascii c + 32) else c.

(** [s.title()] on ASCII text: a letter after a letter is lowered, any
    other letter is raised. *)
Fixpoint title_from (after_letter : bool) (s : string) : string :=
  match s with
  | EmptyString => EmptyString
  | String c s' =>
      if is_lower c || is_upper c
      then String (if after_letter then to_lower c else to_upper c) (title_from true s')
      else String c (title_from false s')
  end.
Definition title (s : string) : string := title_from false s.

Inductive web_event :=
| PrintTextConfig (text : string) (config : AppConfig)
| RemoteInference (text : string) (config : AppConfig).

Section Web.

Variable Image : Type.
(** The outcome of the remote call [Model().inference.remote(text, config)]:
    the generated image paired with the prompt, or the exception the
    remote side raised. *)
Variable inference_remote : string -> AppConfig -> result (Image * string).

Definition config : AppConfig := AppConfig_default.

Definition instance_phrase : string :=
  app_instance_name config ++ " the " ++ app_class_name config.

Definition example_prompts : list string :=
  [ instance_phrase;
    "a painting of " ++ title instance_phrase ++ " With A Pearl Earring, by Vermeer";
    "oil painting of " ++ instance_phrase ++ " flying through space as an astronaut";
    "a painting of " ++ instance_phrase ++ " in cyberpunk city. character design by cory loftis. volumetric light, detailed, rendered in octane";
    "drawing of " ++ instance_phrase ++ " high quality, cartoon, path traced, by studio ghibli and don bluth" ].

(** [not text]: [None] and the empty string are falsy. *)
Definition falsy (text : option string) : bool :=
  match text with
  | None => true
  | Some s => String.eqb s ""
  end.

(** [xs[i]] *)
Definition index {A} (xs : list A) (i : nat) : result A :=
  match nth_error xs i with
  | Some x => Return x
  | None => Raise (IndexError "list index out of range")
  end.

Definition go (text : option string) : M web_event (Image * string) :=
  text <- (if falsy text then lift (index example_prompts 0)
           else ret (match text with Some s => s | None => "" end)) ;;
  emit (PrintTextConfig text config) ;;
  emit (RemoteInference text config) ;;
  lift (inference_remote text config).

End Web.

Arguments go {Image} inference_remote text.

(** *** Facts about the decimal rendering of integers *)

Definition int_chars : string := "-0123456789".

Lemma string_of_uint_chars c d :
  mem_char c int_chars = false -> mem_char c (NilEmpty.string_of_uint d) = false.
Proof.
  intros H. unfold int_chars in H. simpl in H.
  repeat (apply orb_false_elim in H as [? H]).
  induction d; simpl; auto; apply orb_false_intro; assumption.
Qed.

Lemma str_of_int_chars c z :
  mem_char c int_chars = false -> mem_char c (str_of_int z) = false.
Proof.
  intros H. unfold str_of_int.
  destruct (Z.to_int z) as [d|d]; simpl.
  - now apply string_of_uint_chars.
  - apply orb_false_intro; [|now apply string_of_uint_chars].
    unfold int_chars in H. simpl in H. now apply orb_false_elim in H as [? _].
Qed.

Lemma str_of_int_inj z z' : str_of_int z = str_of_int z' -> z = z'.
Proof.
  unfold str_of_int. intros H.
  apply DecimalZ.to_int_inj.
  assert (E : Some (Z.to_int z) = Some (Z.to_int z')).
  { rewrite <- !NilEmpty.isi. now rewrite H. }
  now injection E.
Qed.

(** *** Facts about the derived directory name *)

Lemma steps_rank_name_inj s r s' r' :
  steps_rank_name s r = steps_rank_name s' r' -> s = s' /\ r = r'.
Proof.
  unfold steps_rank_name. intros H.
  apply StrFacts.append_inv_head in H.
  change ("_rank_" ++ str_of_int r) with (String "_" ("rank_" ++ str_of_int r)) in H.
  change ("_rank_" ++ str_of_int r') with (String "_" ("rank_" ++ str_of_int r')) in H.
  apply StrFacts.append_sep_inj in H; try (apply str_of_int_chars; reflexivity).
  destruct H as [Hs Hr].
  apply StrFacts.append_inv_head in Hr.
  split; now apply str_of_int_inj.
Qed.

Lemma steps_rank_name_no_slash s r : mem_char "/" (steps_rank_name s r) = false.
Proof.
  unfold steps_rank_name.
  rewrite !StrFacts.mem_char_app.
  rewrite !str_of_int_chars by reflexivity. reflexivity.
Qed.

(** The name is a single path component: [Path(MODEL_DIR) / name] has
    exactly the components [model] and the name. *)
Lemma sweep_output_dir_parts s r :
  Pathlib.truediv (Pathlib.parse MODEL_DIR) (steps_rank_name s r)
  = Pathlib.mkPath "/" ["model"; steps_rank_name s r].
Proof.
  unfold Pathlib.truediv, Pathlib.parse at 2 3 4.
  assert (E : Pathlib.splitroot (steps_rank_name s r) = ("", steps_rank_name s r))
    by reflexivity.
  rewrite E. cbn [Pathlib.root Pathlib.parts].
  rewrite (StrFacts.split_on_absent _ _ (steps_rank_name_no_slash s r)).
  reflexivity.
Qed.

(** *** Facts about [product] *)

Lemma product_length {A B} (xs : list A) (ys : list B) :
  List.length (product xs ys) = List.length xs * List.length ys.
Proof.
  unfold product. induction xs as [|x xs IH]; simpl; [reflexivity|].
  now rewrite length_app, length_map, IH.
Qed.

Lemma product_nth_error {A B} (xs : list A) (ys : list B) i j x y :
  nth_error xs i = Some x -> nth_error ys j = Some y ->
  nth_error (product xs ys) (i * List.length ys + j) = Some (x, y).
Proof.
  unfold product. revert i. induction xs as [|a xs IH]; intros [|i] Hx Hy;
    simpl in Hx; try discriminate.
  - injection Hx as ->. simpl.
    rewrite nth_error_app1.
    + now rewrite nth_error_map, Hy.
    + rewrite length_map. apply nth_error_Some. now rewrite Hy.
  - simpl. rewrite nth_error_app2; rewrite length_map; [|lia].
    replace (List.length ys + i * List.length ys + j - List.length ys) with (i * List.length ys + j) by lia.
    now apply IH.
Qed.

Lemma product_In {A B} (xs : list A) (ys : list B) x y :
  In (x, y) (product xs ys) <-> In x xs /\ In y ys.
Proof.
  unfold product. rewrite in_flat_map. split.
  - intros (a & Ha & H). apply in_map_iff in H as (b & E & Hb).
    injection E as -> ->. now split.
  - intros [Hx Hy]. exists x. split; [assumption|].
    apply in_map_iff. now exists y.
Qed.

Lemma product_NoDup {A B} (xs : list A) (ys : list B) :
  NoDup xs -> NoDup ys -> NoDup (product xs ys).
Proof.
  intros Hxs Hys. induction Hxs as [|x xs Hx Hxs IH].
  - constructor.
  - change (product (x :: xs) ys)
      with (map (fun y => (x, y)) ys ++ product xs ys)%list.
    apply NoDup_app.
    + apply NoDup_map_NoDup_ForallPairs; [|assumption].
      intros b b' _ _ E. now injection E.
    + assumption.
    + intros [a b] H1 H2. apply in_map_iff in H1 as (b' & E & _).
      injection E as <- _. apply product_In in H2 as [H2 _]. contradiction.
Qed.

(** *** The sweep *)

Lemma generate_sweep_configs_length sweep_config :
  List.length (generate_sweep_configs sweep_config)
  = List.length (train_steps sweep_config) * List.length (ranks sweep_config).
Proof. unfold generate_sweep_configs. now rewrite length_map, product_length. Qed.

Lemma generate_sweep_configs_nth sweep_config i j steps rank :
  nth_error (train_steps sweep_config) i = Some steps ->
  nth_error (ranks sweep_config) j = Some rank ->
  nth_error (generate_sweep_configs sweep_config)
            (i * List.length (ranks sweep_config) + j)
  = Some (sweep_record sweep_config steps rank).
Proof.
  intros Hi Hj. unfold generate_sweep_configs.
  rewrite nth_error_map, (product_nth_error _ _ _ _ _ _ Hi Hj). reflexivity.
Qed.

Lemma sweep_record_output_dir_inj sc s r s' r' :
  output_dir (sweep_record sc s r) = output_dir (sweep_record sc s' r') ->
  (s, r) = (s', r').
Proof.
  cbn [output_dir sweep_record]. rewrite !sweep_output_dir_parts.
  intros H.
  apply (f_equal (fun p => nth 1 (Pathlib.parts p) "")) in H.
  cbn [nth Pathlib.parts] in H.
  apply steps_rank_name_inj in H as [-> ->]. reflexivity.
Qed.

Lemma generate_sweep_configs_NoDup sweep_config :
  NoDup (train_steps sweep_config) -> NoDup (ranks sweep_config) ->
  NoDup (map output_dir (generate_sweep_configs sweep_config)).
Proof.
  intros Hs Hr. unfold generate_sweep_configs. rewrite map_map.
  apply NoDup_map_NoDup_ForallPairs; [|now apply product_NoDup].
  intros [s r] [s' r'] _ _ H. now apply sweep_record_output_dir_inj in H.
Qed.

(** The scalar fields a record takes over from the sweep configuration. *)
Definition copied_from (sweep_config : SweepConfig) (c : Config) : Prop :=
  model_name c = sc_model_name sweep_config /\
  instance_prompt c = sc_instance_prompt sweep_config /\
  dataset_name c = sc_dataset_name sweep_config /\
  caption_column c = sc_caption_column sweep_config /\
  resolution c = sc_resolution sweep_config /\
  train_batch_size c = sc_train_batch_size sweep_config /\
  gradient_accumulation_steps c = sc_gradient_accumulation_steps sweep_config /\
  lr_scheduler c = sc_lr_scheduler sweep_config /\
  lr_warmup_steps c = sc_lr_warmup_steps sweep_config /\
  checkpointing_steps c = sc_checkpointing_steps sweep_config /\
  seed c = sc_seed sweep_config.

(** A sweep whose step list repeats a value. *)
Definition repeated_steps_sweep : SweepConfig :=
  {| instance_name := instance_name SweepConfig_default;
     class_name := class_name SweepConfig_default;
     sc_model_name := sc_model_name SweepConfig_default;
     sc_dataset_name := sc_dataset_name SweepConfig_default;
     sc_caption_column := sc_caption_column SweepConfig_default;
     sc_instance_prompt := sc_instance_prompt SweepConfig_default;
     prefix := prefix SweepConfig_default;
     postfix := postfix SweepConfig_default;
     sc_resolution := sc_resolution SweepConfig_default;
     sc_train_batch_size := sc_train_batch_size SweepConfig_default;
     sc_rank := sc_rank SweepConfig_default;
     sc_gradient_accumulation_steps := sc_gradient_accumulation_steps SweepConfig_default;
     sc_lr_scheduler := sc_lr_scheduler SweepConfig_default;
     sc_lr_warmup_steps := sc_lr_warmup_steps SweepConfig_default;
     sc_max_train_steps := sc_max_train_steps SweepConfig_default;
     sc_checkpointing_steps := sc_checkpointing_steps SweepConfig_default;
     sc_seed := sc_seed SweepConfig_default;
     train_steps := [2000; 2000]%Z;
     ranks := [8]%Z;
     threedicon_test_prompts := threedicon_test_prompts SweepConfig_default;
     heroicon_test_prompts := heroicon_test_prompts SweepConfig_default |}.

(** C4, as stated, fails: a sweep whose step list holds 2000 twice yields
    two records with the same [output_dir], [/model/steps_2000_rank_8]. *)
Lemma generate_sweep_configs_repeated_output_dir :
  ~ NoDup (map output_dir (generate_sweep_configs repeated_steps_sweep)).
Proof.
  intros H. vm_compute in H.
  apply NoDup_cons_iff in H as [H _]. apply H. left. reflexivity.
Qed.

(** C4 (amended): for every sweep configuration, with N step counts and
    M ranks, [generate_sweep_configs] returns exactly N * M records; the
    record at position [i * M + j] has [max_train_steps] equal to the
    i-th step count and [rank] equal to the j-th rank, and its other
    scalar fields are those of the sweep configuration.  When neither
    list holds a repeated value, the [output_dir] paths of the records
    are pairwise distinct. *)
Theorem generate_sweep_configs_spec sweep_config :
  List.length (generate_sweep_configs sweep_config)
  = List.length (train_steps sweep_config) * List.length (ranks sweep_config)
  /\ (forall i j steps rk,
        nth_error (train_steps sweep_config) i = Some steps ->
        nth_error (ranks sweep_config) j = Some rk ->
        exists c,
          nth_error (generate_sweep_configs sweep_config)
                    (i * List.length (ranks sweep_config) + j) = Some c
          /\ max_train_steps c = steps
          /\ rank c = rk
          /\ copied_from sweep_config c)
  /\ (NoDup (train_steps sweep_config) ->
      NoDup (ranks sweep_config) ->
      NoDup (map output_dir (generate_sweep_configs sweep_config))).
Proof.
  split; [apply generate_sweep_configs_length|].
  split; [|apply generate_sweep_configs_NoDup].
  intros i j steps rk Hi Hj.
  exists (sweep_record sweep_config steps rk).
  split; [now apply generate_sweep_configs_nth|].
  repeat split.
Qed.

Lemma generate_sweep_configs_spec_witness :
  (exists c,
      nth_error (generate_sweep_configs SweepConfig_default)
                (1 * List.length (ranks SweepConfig_default) + 0) = Some c
      /\ max_train_steps c = 3000%Z
      /\ rank c = 8%Z
      /\ copied_from SweepConfig_default c)
  /\ NoDup (map output_dir (generate_sweep_configs SweepConfig_default)).
Proof.
  destruct (generate_sweep_configs_spec SweepConfig_default) as (_ & Hnth & Hnd).
  split.
  - apply (Hnth 1 0 3000%Z 8%Z); reflexivity.
  - apply Hnd; simpl; repeat constructor; simpl; intuition discriminate.
Defined.

(** C8: the path [generate_sweep_configs] stores in a record's
    [output_dir], [Path(MODEL_DIR) / "steps_{steps}_rank_{rank}"], is, as a
    string, the path that [run] and [Model.load_model] derive again from
    the record's [max_train_steps] and [rank]. *)
Theorem sweep_output_dir_agrees sweep_config :
  (forall steps rk,
     Pathlib.str (output_dir (sweep_record sweep_config steps rk))
     = load_model_path (run_model_dir (sweep_record sweep_config steps rk)))
  /\ Forall (fun c => Pathlib.str (output_dir c) = load_model_path (run_model_dir c))
            (generate_sweep_configs sweep_config).
Proof.
  assert (H : forall steps rk,
     Pathlib.str (output_dir (sweep_record sweep_config steps rk))
     = load_model_path (run_model_dir (sweep_record sweep_config steps rk))).
  { intros steps rk. cbn [output_dir sweep_record].
    rewrite sweep_output_dir_parts. reflexivity. }
  split; [exact H|].
  apply Forall_forall. intros c Hc.
  unfold generate_sweep_configs in Hc.
  apply in_map_iff in Hc as ([s r] & <- & _). apply H.
Qed.

(** *** The subprocess wrapper and [train] *)

Lemma for_each_print lines :
  for_each lines (fun line_str => emit (Print line_str ""))
  = (map (fun l => Print l "") lines, Return tt).
Proof.
  induction lines as [|l lines IH]; [reflexivity|].
  simpl. rewrite IH. reflexivity.
Qed.

Lemma _exec_subprocess_zero child cmd :
  snd (child cmd) = 0%Z ->
  _exec_subprocess child cmd
  = ((Popen cmd :: map (fun l => Print l "") (fst (child cmd)))%list, Return tt).
Proof.
  intros H. unfold _exec_subprocess.
  destruct (child cmd) as [lines status]. simpl in H. subst status.
  rewrite for_each_print. simpl. now rewrite app_nil_r.
Qed.

Lemma _exec_subprocess_nonzero child cmd :
  snd (child cmd) <> 0%Z ->
  _exec_subprocess child cmd
  = ((Popen cmd :: map (fun l => Print l "") (fst (child cmd)))%list,
     Raise (CalledProcessError (PyBool true) (CmdStr (join nl cmd)))).
Proof.
  intros H. unfold _exec_subprocess.
  destruct (child cmd) as [lines status]. simpl in H.
  rewrite for_each_print.
  apply Z.eqb_neq in H. simpl. rewrite H. simpl. now rewrite app_nil_r.
Qed.

(** C1: a child that exits with status 2.  [_exec_subprocess] raises
    [CalledProcessError] with the command joined by line feeds, but the
    code it carries is the Boolean [True] (which Python counts as 1), not
    the child's status 2.  In general the wrapper returns on status 0 and
    raises with the code [True] on every other status. *)
Theorem _exec_subprocess_status_2 :
  outcome (_exec_subprocess (fun _ => ([], 2%Z)) ["sh"; "-c"; "exit 2"])
  = Raise (CalledProcessError (PyBool true)
             (CmdStr ("sh" ++ nl ++ "-c" ++ nl ++ "exit 2")))
  /\ py_eq (PyBool true) (PyInt 2) = false
  /\ forall child cmd,
       outcome (_exec_subprocess child cmd)
       = if Z.eqb (snd (child cmd)) 0 then Return tt
         else Raise (CalledProcessError (PyBool true) (CmdStr (join nl cmd))).
Proof.
  split; [reflexivity|]. split; [reflexivity|].
  intros child cmd. destruct (Z.eqb_spec (snd (child cmd)) 0) as [H|H].
  - now rewrite (_exec_subprocess_zero child cmd H).
  - now rewrite (_exec_subprocess_nonzero child cmd H).
Qed.

(** C9: when the training subprocess exits with status 0, [train] commits
    the volume as its last effect and returns the configuration record it
    was given. *)
Theorem train_returns_config child config :
  snd (child (train_cmd config)) = 0%Z ->
  outcome (train child config) = Return config
  /\ effects (train child config)
     = ([ WriteBasicConfig "bf16";
          Print "launching dreambooth training script" nl;
          Popen (train_cmd config) ]
        ++ map (fun l => Print l "") (fst (child (train_cmd config)))
        ++ [VolumeCommit])%list.
Proof.
  intros H. unfold train.
  rewrite (_exec_subprocess_zero child _ H).
  split; reflexivity.
Qed.

Lemma train_returns_config_witness :
  let child := fun _ : list string => (["Steps: 100%" ++ nl], 0%Z) in
  let config := sweep_record SweepConfig_default 2000 8 in
  outcome (train child config) = Return config
  /\ effects (train child config)
     = ([ WriteBasicConfig "bf16";
          Print "launching dreambooth training script" nl;
          Popen (train_cmd config) ]
        ++ map (fun l => Print l "") (fst (child (train_cmd config)))
        ++ [VolumeCommit])%list.
Proof.
  intros child config.
  apply (train_returns_config child config). reflexivity.
Defined.

(** *** The web handler *)


End Dreambooth.

(* ================================================================== *)
(** ** [shlex.split] *)
(* ================================================================== *)

Module Shlex.
Import Py.

(** The lexer of [shlex.split(s)]: POSIX mode, [whitespace_split] set,
    no comment characters, no punctuation characters. *)

Definition dquote : ascii := ascii_of_nat 34.
Definition squote : ascii := "'"%char.
Definition backslash : ascii := "\"%char.

(** [whitespace]: space, tab, carriage return, line feed. *)
Definition is_whitespace (c : ascii) : bool :=
  Ascii.eqb c " " || Ascii.eqb c (ascii_of_nat 9)
  || Ascii.eqb c (ascii_of_nat 13) || Ascii.eqb c (ascii_of_nat 10).
(** [quotes]: the single and the double quote. *)
Definition is_quote (c : ascii) : bool := Ascii.eqb c squote || Ascii.eqb c dquote.
(** [escape]: the backslash. *)
Definition is_escape (c : ascii) : bool := Ascii.eqb c backslash.
(** [escapedquotes]: the double quote. *)
Definition is_escapedquote (c : ascii) : bool := Ascii.eqb c dquote.

(** The lexer state [self.state]: blank, in a word, a quote character or
    an escape character.  [escapedstate] takes its values in the same type. *)
Inductive state :=
| Space
| Word
| Quote (q : ascii)
| Escape (e : ascii).

Definition nonempty (s : string) : bool := negb (String.eqb s "").

(** End of one [read_token] call with [result = token]: an unquoted empty
    result is [None], which ends the iteration; any other result is
    yielded and the iteration goes on with [rest]. *)
Definition yield (quoted : bool) (token : string) (rest : result (list string))
  : result (list string) :=
  if negb quoted && String.eqb token "" then Return []
  else match rest with
       | Return ts => Return (token :: ts)
       | Raise e => Raise e
       end.

(** [read_token] called until the input ends, one character per step.
    [st] is [self.state], [token] is [self.token]; [escapedstate] and
    [quoted] are the locals of the running [read_token] call.  A character
    that is neither white space, escape nor quote is added to the token
    (the [wordchars] and [whitespace_split] branches do the same). *)
Fixpoint lex (st escapedstate : state) (quoted : bool) (token : string)
             (s : string) : result (list string) :=
  match s with
  | EmptyString =>
      match st with
      | Space | Word => yield quoted token (Return [])
      | Quote _ => Raise (ValueError "No closing quotation")
      | Escape _ => Raise (ValueError "No escaped character")
      end
  | String nextchar s' =>
      match st with
      | Space =>
          if is_whitespace nextchar then
            if nonempty token || quoted
            then yield quoted token (lex Space Space false "" s')
            else lex Space escapedstate quoted token s'
          else if is_escape nextchar then lex (Escape nextchar) Word quoted token s'
          else if is_quote nextchar then lex (Quote nextchar) escapedstate quoted token s'
          else lex Word escapedstate quoted (String nextchar "") s'
      | Quote q =>
          if Ascii.eqb nextchar q then lex Word escapedstate true token s'
          else if is_escape nextchar && is_escapedquote q
          then lex (Escape nextchar) (Quote q) true token s'
          else lex (Quote q) escapedstate true (token ++ String nextchar "") s'
      | Escape e =>
          let token :=
            match escapedstate with
            | Quote q =>
                if negb (Ascii.eqb nextchar e) && negb (Ascii.eqb nextchar q)
                then token ++ String e "" else token
            | _ => token
            end in
          lex escapedstate escapedstate quoted (token ++ String nextchar "") s'
      | Word =>
          if is_whitespace nextchar then
            if nonempty token || quoted
            then yield quoted token (lex Space Space false "" s')
            else lex Space escapedstate quoted token s'
          else if is_quote nextchar then lex (Quote nextchar) escapedstate quoted token s'
          else if is_escape nextchar then lex (Escape nextchar) Word quoted token s'
          else lex Word escapedstate quoted (token ++ String nextchar "") s'
      end
  end.

(** [shlex.split(s)] *)
Definition split (s : string) : result (list string) := lex Space Space false "" s.

(** A character that starts or continues a plain word. *)
Definition plain_char (c : ascii) : bool :=
  negb (is_whitespace c) && negb (is_quote c) && negb (is_escape c).

Fixpoint plain (s : string) : bool :=
  match s with
  | EmptyString => true
  | String c s' => plain_char c && plain s'
  end.

Example split_empty : split "" = Return [].
Proof. reflexivity. Qed.

Example split_mixed :
  split "--out 'a b'  x\ y --n=3" = Return ["--out"; "a b"; "x y"; "--n=3"].
Proof. reflexivity. Qed.

Example split_unclosed : split "--name 'abc" = Raise (ValueError "No closing quotation").
Proof. reflexivity. Qed.

(** *** How words and quoted parts are lexed *)

Lemma plain_char_inv c :
  plain_char c = true ->
  is_whitespace c = false /\ is_quote c = false /\ is_escape c = false.
Proof.
  unfold plain_char. intros H.
  apply andb_prop in H as [H He]. apply andb_prop in H as [Hw Hq].
  now rewrite negb_true_iff in Hw, Hq, He.
Qed.

(** Inside a word, plain characters are added to the token. *)
Lemma lex_word_plain w : forall esc quoted token s,
  plain w = true ->
  lex Word esc quoted token (w ++ s) = lex Word esc quoted (token ++ w) s.
Proof.
  induction w as [|c w IH]; intros esc quoted token s H; simpl in H |- *.
  - now rewrite StrFacts.append_nil_r.
  - apply andb_prop in H as [Hc Hw].
    destruct (plain_char_inv c Hc) as (-> & -> & ->).
    rewrite (IH _ _ _ _ Hw), StrFacts.append_assoc. reflexivity.
Qed.

(** A plain prefix in front of a quote character becomes the start of
    the token the quoted part goes on with. *)
Lemma lex_plain_then_quote pre qc s :
  plain pre = true -> is_quote qc = true ->
  lex Space Space false "" (pre ++ String qc s) = lex (Quote qc) Space false pre s.
Proof.
  intros Hpre Hq.
  assert (Hqc : is_whitespace qc = false /\ is_escape qc = false).
  { unfold is_quote in Hq. apply orb_prop in Hq as [Hq|Hq];
      apply Ascii.eqb_eq in Hq; subst qc; split; reflexivity. }
  destruct Hqc as [Hws Hesc].
  destruct pre as [|c pre]; simpl in Hpre |- *.
  - now rewrite Hws, Hesc, Hq.
  - apply andb_prop in Hpre as [Hc Hpre].
    destruct (plain_char_inv c Hc) as (-> & -> & ->).
    rewrite (lex_word_plain pre _ _ _ _ Hpre). simpl.
    now rewrite Hws, Hq.
Qed.

(** Between single quotes every character is taken as it is, up to the
    closing quote. *)
Lemma lex_single_quoted q : forall esc quoted token s,
  mem_char squote q = false ->
  lex (Quote squote) esc quoted token (q ++ String squote s)
  = lex Word esc true (token ++ q) s.
Proof.
  induction q as [|c q IH]; intros esc quoted token s H;
    cbn [mem_char] in H; cbn [lex String.append].
  - rewrite Ascii.eqb_refl. now rewrite StrFacts.append_nil_r.
  - apply orb_false_elim in H as [Hc Hq].
    rewrite Ascii.eqb_sym in Hc. rewrite Hc.
    replace (is_escape c && is_escapedquote squote) with false
      by (now rewrite andb_false_r).
    rewrite (IH _ _ _ _ Hq), StrFacts.append_assoc. reflexivity.
Qed.

(** Between double quotes the same holds for text without backslash. *)
Lemma lex_double_quoted q : forall esc quoted token s,
  mem_char dquote q = false -> mem_char backslash q = false ->
  lex (Quote dquote) esc quoted token (q ++ String dquote s)
  = lex Word esc true (token ++ q) s.
Proof.
  induction q as [|c q IH]; intros esc quoted token s H Hb;
    cbn [mem_char] in H, Hb; cbn [lex String.append].
  - rewrite Ascii.eqb_refl. now rewrite StrFacts.append_nil_r.
  - apply orb_false_elim in H as [Hc Hq].
    apply orb_false_elim in Hb as [Hcb Hqb].
    rewrite Ascii.eqb_sym in Hc. rewrite Hc.
    unfold is_escape. rewrite Ascii.eqb_sym in Hcb. rewrite Hcb.
    cbn [andb].
    rewrite (IH _ _ _ _ Hq Hqb), StrFacts.append_assoc. reflexivity.
Qed.

(** A blank after a quoted part ends the token, empty or not. *)
Lemma lex_word_blank_quoted esc token s ts :
  split s = Return ts ->
  lex Word esc true token (String " " s) = Return (token :: ts).
Proof.
  intros H. simpl. rewrite orb_true_r. unfold yield. simpl.
  unfold split in H. now rewrite H.
Qed.

Lemma split_plain_word w rest ts :
  plain w = true -> w <> "" -> split rest = Return ts ->
  split (w ++ " " ++ rest) = Return (w :: ts).
Proof.
  intros Hw Hne Hrest. unfold split.
  destruct w as [|c w]; [contradiction|]. simpl in Hw |- *.
  apply andb_prop in Hw as [Hc Hw].
  destruct (plain_char_inv c Hc) as (-> & -> & ->).
  rewrite (lex_word_plain w _ _ _ _ Hw). simpl.
  unfold yield. simpl. unfold split in Hrest. now rewrite Hrest.
Qed.

Lemma split_single_quoted pre q rest ts :
  plain pre = true -> mem_char squote q = false -> split rest = Return ts ->
  split (pre ++ String squote (q ++ String squote (" " ++ rest)))
  = Return ((pre ++ q) :: ts).
Proof.
  intros Hpre Hq Hrest. unfold split.
  rewrite (lex_plain_then_quote pre squote _ Hpre eq_refl).
  rewrite (lex_single_quoted q _ _ _ _ Hq).
  now apply lex_word_blank_quoted.
Qed.

Lemma split_double_quoted pre q rest ts :
  plain pre = true -> mem_char dquote q = false -> mem_char backslash q = false ->
  split rest = Return ts ->
  split (pre ++ String dquote (q ++ String dquote (" " ++ rest)))
  = Return ((pre ++ q) :: ts).
Proof.
  intros Hpre Hq Hb Hrest. unfold split.
  rewrite (lex_plain_then_quote pre dquote _ Hpre eq_refl).
  rewrite (lex_double_quoted q _ _ _ _ Hq Hb).
  now apply lex_word_blank_quoted.
Qed.

(** The lexer alone: [shlex.split] turns ["--sampling_steps 10"] into the two tokens
    [--sampling_steps] and [10]; a plain word followed by a blank is one
    token; and a part between single quotes (any text without a single
    quote) or between double quotes (any text without double quote and
    backslash), blanks included, stays inside one token, joined to the
    plain text right before it. *)
Theorem split_sampling_steps_and_quotes :
  split "--sampling_steps 10" = Return ["--sampling_steps"; "10"]
  /\ (forall w rest ts,
        plain w = true -> w <> "" -> split rest = Return ts ->
        split (w ++ " " ++ rest) = Return (w :: ts))
  /\ (forall pre q rest ts,
        plain pre = true -> mem_char squote q = false -> split rest = Return ts ->
        split (pre ++ String squote (q ++ String squote (" " ++ rest)))
        = Return ((pre ++ q) :: ts))
  /\ (forall pre q rest ts,
        plain pre = true -> mem_char dquote q = false ->
        mem_char backslash q = false -> split rest = Return ts ->
        split (pre ++ String dquote (q ++ String dquote (" " ++ rest)))
        = Return ((pre ++ q) :: ts)).
Proof.
  split; [reflexivity|].
  split; [exact split_plain_word|].
  split; [exact split_single_quoted | exact split_double_quoted].
Qed.

End Shlex.

(* ================================================================== *)
(** ** Files: [os.path], [os.walk] and the members of a [ZipFile] *)
(* ================================================================== *)

Module Os.
Import Py.

Definition bytes : Type := list Byte.byte.

(** What [os.stat] tells of a regular file and [zipfile] stores with it:
    the year of the modification time (local time) and the mode bits. *)
Record file_stat := mkStat { st_mtime_year : Z; st_mode : Z }.

(** A regular file: its status and its content. *)
Definition filedata : Type := (file_stat * bytes)%type.

(** A file tree of regular files and directories (no symbolic links, names
    that are valid text).  A directory lists its entries in the order
    [os.scandir] yields them. *)
Inductive node :=
| File (data : filedata)
| Dir (entries : list (string * node)).

(** The file system a process sees: the tree at [/] and the components of
    its working directory. *)
Record FS := mkFS { root_dir : node; cwd : list string }.

Definition is_dir (n : node) : bool :=
  match n with Dir _ => true | File _ => false end.

Fixpoint assoc (name : string) (es : list (string * node)) : option node :=
  match es with
  | [] => None
  | (n, child) :: es' => if String.eqb n name then Some child else assoc name es'
  end.

(** The node reached from [n] along the components [comps]. *)
Fixpoint lookup (n : node) (comps : list string) : option node :=
  match comps with
  | [] => Some n
  | c :: cs =>
      match n with
      | Dir es => match assoc c es with
                  | Some child => lookup child cs
                  | None => None
                  end
      | File _ => None
      end
  end.

(** *** [posixpath] *)

(** [os.getcwd()] *)
Definition getcwd (fs : FS) : string := "/" ++ join "/" (cwd fs).

Definition isabs (s : string) : bool := startswith "/" s.

Fixpoint endswith_slash (s : string) : bool :=
  match s with
  | EmptyString => false
  | String c EmptyString => Ascii.eqb c "/"
  | String _ s' => endswith_slash s'
  end.

(** [os.path.join(a, b)] *)
Definition path_join (a b : string) : string :=
  if startswith "/" b then b
  else if String.eqb a "" || endswith_slash a then a ++ b
  else a ++ "/" ++ b.

(** [os.path.join(a, *p)] *)
Definition path_join_all (a : string) (p : list string) : string :=
  fold_left path_join p a.

(** One round of the loop of [normpath]; [new_comps] is kept with its last
    element first. *)
Definition norm_step (initial_slashes : bool) (new_comps : list string)
                     (comp : string) : list string :=
  if String.eqb comp "" || String.eqb comp "." then new_comps
  else if negb (String.eqb comp "..")
          || (negb initial_slashes && match new_comps with [] => true | _ => false end)
          || match new_comps with h :: _ => String.eqb h ".." | [] => false end
  then comp :: new_comps
  else tl new_comps.

Definition norm_comps (initial_slashes : bool) (comps : list string) : list string :=
  rev (fold_left (norm_step initial_slashes) comps []).

(** The leading slashes [normpath] keeps: two if the path starts with
    exactly two, one if it starts with any other number, none otherwise. *)
Definition initial_slashes (path : string) : string :=
  if startswith "/" path then
    if startswith "//" path && negb (startswith "///" path) then "//" else "/"
  else "".

(** [os.path.normpath(path)] *)
Definition normpath (path : string) : string :=
  if String.eqb path "" then "."
  else
    let comps := norm_comps (startswith "/" path) (split_on "/" path) in
    let path' := initial_slashes path ++ join "/" comps in
    if String.eqb path' "" then "." else path'.

(** [os.path.abspath(path)] *)
Definition abspath (fs : FS) (path : string) : string :=
  normpath (if isabs path then path else path_join (getcwd fs) path).

Definition nonempty (s : string) : bool := negb (String.eqb s "").

(** [[x for x in abspath(path).split(sep) if x]] *)
Definition abs_comps (fs : FS) (path : string) : list string :=
  filter nonempty (split_on "/" (abspath fs path)).

(** [os.path.commonprefix] of two component lists. *)
Fixpoint commonprefix (l1 l2 : list string) : list string :=
  match l1, l2 with
  | a :: l1', b :: l2' => if String.eqb a b then a :: commonprefix l1' l2' else []
  | _, _ => []
  end.

(** [os.path.relpath(path, start)] *)
Definition relpath (fs : FS) (path start : string) : result string :=
  if String.eqb path "" then Raise (ValueError "no path specified")
  else
    let start_list := abs_comps fs start in
    let path_list := abs_comps fs path in
    let i := List.length (commonprefix start_list path_list) in
    let rel_list := (repeat ".." (List.length start_list - i) ++ skipn i path_list)%list in
    match rel_list with
    | [] => Return "."
    | a :: p => Return (path_join_all a p)
    end.

(** One step of path resolution by the system.  [stack] holds the
    components of the directory reached so far, last first.  Every
    component, empty and [.] included, needs that place to be a
    directory; [..] goes to its parent, a name to its entry, which must
    exist. *)
Definition resolve_step (root : node) (stack : option (list string))
                        (comp : string) : option (list string) :=
  match stack with
  | None => None
  | Some st =>
      match lookup root (rev st) with
      | Some (Dir _) =>
          if String.eqb comp "" || String.eqb comp "." then Some st
          else if String.eqb comp ".." then Some (tl st)
          else match lookup root (rev (comp :: st)) with
               | Some _ => Some (comp :: st)
               | None => None
               end
      | _ => None
      end
  end.

(** The components of the place a path leads to, from [/], if the system
    can follow it. *)
Definition realcomps (fs : FS) (path : string) : option (list string) :=
  option_map (@rev string)
    (fold_left (resolve_step (root_dir fs))
       (split_on "/" (if isabs path then path else path_join (getcwd fs) path))
       (Some [])).

(** The node a path names; the empty path names nothing. *)
Definition stat (fs : FS) (path : string) : option node :=
  if String.eqb path "" then None
  else match realcomps fs path with
       | Some comps => lookup (root_dir fs) comps
       | None => None
       end.

(** *** [os.walk] *)

Definition dirs_of (es : list (string * node)) : list string :=
  map fst (filter (fun e => is_dir (snd e)) es).
Definition nondirs_of (es : list (string * node)) : list string :=
  map fst (filter (fun e => negb (is_dir (snd e))) es).

(** Top-down walk of the directory [n] known under the path [top]: the
    triple for the directory itself, then the walks of its subdirectories
    under [join(top, dirname)], in listing order. *)
Fixpoint walk (top : string) (n : node) : list (string * list string * list string) :=
  match n with
  | File _ => []
  | Dir es =>
      (top, dirs_of es, nondirs_of es)
      :: flat_map (fun e => walk (path_join top (fst e)) (snd e)) es
  end.

(** [os.walk(top)]: a path that is no directory yields nothing. *)
Definition os_walk (fs : FS) (top : string) : list (string * list string * list string) :=
  match stat fs top with
  | Some (Dir es) => walk top (Dir es)
  | _ => []
  end.

(** *** [zipfile] *)

(** The members written to a [ZipFile], in order: archive name, and the
    status and content of the file. *)
Definition members : Type := list (string * filedata).

(** The years a ZIP time stamp can hold. *)
Definition zip_year_ok (st : file_stat) : bool :=
  Z.leb 1980 (st_mtime_year st) && Z.leb (st_mtime_year st) 2107.

(** The status stored for a directory member; [package_outputs] writes
    files only and never reaches it. *)
Definition dir_stat : file_stat := mkStat 1980 0.

(** The name under which [ZipFile.write] stores [arcname]: normalised,
    without leading slashes. *)
Definition zip_arcname (arcname : string) : string :=
  Pathlib.lstrip_slash (normpath arcname).

(** [zipf.write(filename, arcname=arcname)] *)
Definition ZipFile_write (fs : FS) (zipf : members) (filename arcname : string)
  : result members :=
  match stat fs filename with
  | Some (File (st, content)) =>
      if Z.ltb (st_mtime_year st) 1980
      then Raise (ValueError "ZIP does not support timestamps before 1980")
      else if Z.ltb 2107 (st_mtime_year st)
      then Raise (StructError "ushort format requires 0 <= number <= 65535")
      else Return (List.app zipf [(zip_arcname arcname, (st, content))])
  | Some (Dir _) =>
      Return (List.app zipf [(zip_arcname arcname ++ "/", (dir_stat, []))])
  | None => Raise (FileNotFoundError filename)
  end.

Definition rbind {A B} (r : result A) (k : A -> result B) : result B :=
  match r with
  | Return a => k a
  | Raise e => Raise e
  end.

(** [for x in xs: acc = body(acc, x)], stopping at the first exception. *)
Fixpoint fold_result {A B} (body : B -> A -> result B) (xs : list A) (acc : B)
  : result B :=
  match xs with
  | [] => Return acc
  | x :: xs' => rbind (body acc x) (fold_result body xs')
  end.

(** *** Well-formed trees *)

(** A name a directory entry can have. *)
Definition valid_name (s : string) : bool :=
  nonempty s && negb (mem_char "/" s)
  && negb (String.eqb s ".") && negb (String.eqb s "..").

Fixpoint distinct (l : list string) : bool :=
  match l with
  | [] => true
  | x :: l' => negb (existsb (String.eqb x) l') && distinct l'
  end.

(** Every directory has valid, pairwise distinct entry names. *)
Fixpoint wf (n : node) : bool :=
  match n with
  | File _ => true
  | Dir es =>
      distinct (map fst es)
      && forallb (fun e => valid_name (fst e) && wf (snd e)) es
  end.

(** Every file of the tree has a modification year a ZIP member can hold. *)
Fixpoint storable (n : node) : bool :=
  match n with
  | File (st, _) => zip_year_ok st
  | Dir es => forallb (fun e => storable (snd e)) es
  end.

(** The files below a directory, each with its components relative to
    the directory: the files of the directory itself, then those of each
    subdirectory. *)
Fixpoint listing (n : node) : list (list string * filedata) :=
  match n with
  | File _ => []
  | Dir es =>
      List.app
        (flat_map (fun e => match snd e with
                            | File c => [([fst e], c)]
                            | Dir _ => []
                            end) es)
        (flat_map (fun e => map (fun pc => (fst e :: fst pc, snd pc))
                                (listing (snd e))) es)
  end.

End Os.

(* ================================================================== *)
(** ** Facts about paths *)
(* ================================================================== *)

Module OsFacts.
Import Py Os.

(** *** Names *)

Lemma valid_name_inv s :
  valid_name s = true ->
  nonempty s = true /\ mem_char "/" s = false
  /\ String.eqb s "." = false /\ String.eqb s ".." = false.
Proof.
  unfold valid_name. intros H.
  apply andb_prop in H as [H H4]. apply andb_prop in H as [H H3].
  apply andb_prop in H as [H1 H2].
  rewrite negb_true_iff in H2, H3, H4. auto.
Qed.

Lemma nonempty_neq s : nonempty s = true -> s <> "".
Proof. unfold nonempty. intros H ->. discriminate. Qed.

Lemma startswith_slash_cons c s : startswith "/" (String c s) = Ascii.eqb "/" c.
Proof.
  unfold startswith. cbn [String.prefix].
  destruct (ascii_dec "/" c) as [<-|Hn].
  - now destruct s.
  - symmetry. now apply Ascii.eqb_neq.
Qed.

Lemma startswith_slash_absent s : mem_char "/" s = false -> startswith "/" s = false.
Proof.
  destruct s as [|c s]; [reflexivity|].
  rewrite startswith_slash_cons. cbn [mem_char].
  intros H. now apply orb_false_elim in H as [H _].
Qed.

Lemma startswith_slash_app a b : a <> "" -> startswith "/" (a ++ b) = startswith "/" a.
Proof.
  destruct a as [|c a]; [contradiction|]. intros _.
  cbn [String.append]. now rewrite !startswith_slash_cons.
Qed.

Lemma endswith_slash_cons c s : s <> "" -> endswith_slash (String c s) = endswith_slash s.
Proof. destruct s; [contradiction | reflexivity]. Qed.

Lemma append_nonempty_r a b : b <> "" -> a ++ b <> "".
Proof. destruct a; [trivial | discriminate]. Qed.

Lemma endswith_slash_app a b : b <> "" -> endswith_slash (a ++ b) = endswith_slash b.
Proof.
  intros Hb. induction a as [|c a IH]; [reflexivity|].
  cbn [String.append]. rewrite endswith_slash_cons; [exact IH|].
  now apply append_nonempty_r.
Qed.

Lemma endswith_slash_absent s : mem_char "/" s = false -> endswith_slash s = false.
Proof.
  induction s as [|c s IH]; [reflexivity|]. cbn [mem_char]. intros H.
  apply orb_false_elim in H as [Hc Hs].
  destruct s as [|d s]; [|exact (IH Hs)].
  cbn [endswith_slash]. now rewrite Ascii.eqb_sym.
Qed.

Lemma endswith_slash_inv s : endswith_slash s = true -> exists t, s = t ++ "/".
Proof.
  induction s as [|c s IH]; [discriminate|].
  destruct s as [|d s].
  - cbn [endswith_slash]. intros H. apply Ascii.eqb_eq in H. subst c. now exists "".
  - intros H. rewrite endswith_slash_cons in H by discriminate.
    destruct (IH H) as [t Ht]. exists (String c t). cbn [String.append]. now rewrite <- Ht.
Qed.

(** *** [split] and [join] *)

Definition slash_free (x : string) : Prop := mem_char "/" x = false.

(** What [normpath] keeps: non-empty components without a slash. *)
Definition kept (x : string) : Prop := nonempty x = true /\ slash_free x.

Lemma split_on_slash_free s : Forall slash_free (split_on "/" s).
Proof.
  induction s as [|c s IH]; cbn [split_on].
  - now repeat constructor.
  - destruct (Ascii.eqb c "/") eqn:E.
    + constructor; [reflexivity | exact IH].
    + destruct (split_on "/" s) as [|h t]; inversion IH; subst;
        constructor; auto.
      * unfold slash_free. cbn [mem_char]. now rewrite Ascii.eqb_sym, E.
      * unfold slash_free. cbn [mem_char]. now rewrite Ascii.eqb_sym, E.
Qed.

Lemma join_cons2 a b l : join "/" (a :: b :: l) = a ++ "/" ++ join "/" (b :: l).
Proof. reflexivity. Qed.

Lemma split_join l :
  l <> [] -> Forall slash_free l -> split_on "/" (join "/" l) = l.
Proof.
  induction l as [|a l IH]; [contradiction|]. intros _ H.
  inversion H as [|? ? Ha Hl]; subst.
  destruct l as [|b l].
  - cbn. now apply StrFacts.split_on_absent.
  - rewrite join_cons2. change ("/" ++ join "/" (b :: l)) with (String "/" (join "/" (b :: l))).
    rewrite StrFacts.split_on_app, (StrFacts.split_on_absent _ _ Ha).
    rewrite IH by (discriminate || assumption). reflexivity.
Qed.

Lemma join_snoc l x : l <> [] -> join "/" (l ++ [x]) = join "/" l ++ "/" ++ x.
Proof.
  induction l as [|a l IH]; [contradiction|]. intros _.
  destruct l as [|b l]; [reflexivity|].
  change ((a :: b :: l) ++ [x])%list with (a :: b :: (l ++ [x]))%list.
  rewrite !join_cons2.
  change (b :: (l ++ [x]))%list with ((b :: l) ++ [x])%list.
  rewrite IH by discriminate. now rewrite !StrFacts.append_assoc.
Qed.

Lemma filter_kept l : Forall kept l -> filter nonempty l = l.
Proof.
  induction 1 as [|x l [Hx _] _ IH]; [reflexivity|].
  cbn [filter]. now rewrite Hx, IH.
Qed.

Lemma kept_slash_free l : Forall kept l -> Forall slash_free l.
Proof. apply Forall_impl. now intros x [_ H]. Qed.

Lemma filter_split_join l :
  Forall kept l -> filter nonempty (split_on "/" (join "/" l)) = l.
Proof.
  intros H. destruct l as [|a l]; [reflexivity|].
  rewrite split_join by (discriminate || now apply kept_slash_free).
  now apply filter_kept.
Qed.

(** The joined components of valid names start with no slash, end with
    no slash and are not empty. *)
Lemma join_valid_shape l :
  l <> [] -> Forall (fun x => valid_name x = true) l ->
  join "/" l <> "" /\ startswith "/" (join "/" l) = false
  /\ endswith_slash (join "/" l) = false.
Proof.
  intros Hne H.
  assert (Hd : forall x, valid_name x = true ->
                         x <> "" /\ mem_char "/" x = false).
  { intros x Hx. apply valid_name_inv in Hx as (Hx & Hs & _).
    split; [now apply nonempty_neq | assumption]. }
  split; [|split].
  - destruct l as [|a l]; [contradiction|]. inversion H; subst.
    destruct (Hd a) as [Ha _]; [assumption|].
    destruct l; [exact Ha|]. rewrite join_cons2.
    destruct a; [contradiction | discriminate].
  - destruct l as [|a l]; [contradiction|]. inversion H; subst.
    destruct (Hd a) as [Ha Hs]; [assumption|].
    destruct l; [now apply startswith_slash_absent|]. rewrite join_cons2.
    rewrite startswith_slash_app by assumption. now apply startswith_slash_absent.
  - destruct (exists_last Hne) as (l' & x & ->).
    apply Forall_app in H as [_ Hx]. inversion Hx; subst.
    destruct (Hd x) as [Hxne Hs]; [assumption|].
    destruct l' as [|a l'].
    + cbn. now apply endswith_slash_absent.
    + rewrite join_snoc by discriminate.
      rewrite <- StrFacts.append_assoc.
      rewrite endswith_slash_app by assumption. now apply endswith_slash_absent.
Qed.

(** [os.path.join] of valid names is [/]-joining. *)
Lemma path_join_all_valid a p :
  Forall (fun x => valid_name x = true) (a :: p) ->
  path_join_all a p = join "/" (a :: p).
Proof.
  unfold path_join_all. induction p as [|x p IH] using rev_ind; intros H.
  - reflexivity.
  - change (a :: (p ++ [x]))%list with ((a :: p) ++ [x])%list in *.
    apply Forall_app in H as [Hp Hx]. inversion Hx; subst.
    rewrite fold_left_app. cbn [fold_left]. rewrite (IH Hp).
    rewrite join_snoc by discriminate.
    destruct (join_valid_shape (a :: p)) as (Hne & _ & He);
      [discriminate | assumption |].
    unfold path_join.
    match goal with Hv : valid_name x = true |- _ =>
      apply valid_name_inv in Hv as (_ & Hs & _) end.
    rewrite (startswith_slash_absent _ Hs), He.
    destruct (String.eqb_spec (join "/" (a :: p)) ""); [contradiction|].
    reflexivity.
Qed.

(** *** [normpath] *)

Lemma norm_step_valid r acc x : valid_name x = true -> norm_step r acc x = x :: acc.
Proof.
  intros H. apply valid_name_inv in H as (Hne & _ & Hd & Hdd).
  unfold norm_step. unfold nonempty in Hne. rewrite negb_true_iff in Hne.
  now rewrite Hne, Hd, Hdd.
Qed.

Lemma norm_fold_valid r names : forall acc,
  Forall (fun x => valid_name x = true) names ->
  fold_left (norm_step r) names acc = (rev names ++ acc)%list.
Proof.
  induction names as [|x names IH]; intros acc H; [reflexivity|].
  inversion H; subst. cbn [fold_left rev].
  rewrite norm_step_valid by assumption. rewrite IH by assumption.
  now rewrite <- app_assoc.
Qed.

Lemma norm_comps_app_valid r comps names :
  Forall (fun x => valid_name x = true) names ->
  norm_comps r (comps ++ names) = (norm_comps r comps ++ names)%list.
Proof.
  intros H. unfold norm_comps.
  rewrite fold_left_app, norm_fold_valid by assumption.
  now rewrite rev_app_distr, rev_involutive.
Qed.

Lemma norm_comps_app_empty r comps : norm_comps r (comps ++ [""]) = norm_comps r comps.
Proof. unfold norm_comps. now rewrite fold_left_app. Qed.

Lemma norm_comps_valid r names :
  Forall (fun x => valid_name x = true) names -> norm_comps r names = names.
Proof. intros H. apply (norm_comps_app_valid r [] names H). Qed.

Lemma norm_fold_kept r comps : forall acc,
  Forall slash_free comps -> Forall kept acc ->
  Forall kept (fold_left (norm_step r) comps acc).
Proof.
  induction comps as [|c comps IH]; intros acc Hc Hacc; [exact Hacc|].
  inversion Hc; subst. cbn [fold_left]. apply IH; [assumption|].
  unfold norm_step.
  destruct (String.eqb c "") eqn:E; [exact Hacc|]. cbn [orb].
  destruct (String.eqb c "."); [exact Hacc|].
  match goal with |- Forall kept (if ?b then _ else _) => destruct b end.
  - constructor; [|exact Hacc]. split; [|assumption].
    unfold nonempty. now rewrite E.
  - destruct acc; [constructor | now inversion Hacc].
Qed.

Lemma norm_comps_kept r s : Forall kept (norm_comps r (split_on "/" s)).
Proof.
  unfold norm_comps. apply Forall_rev.
  apply norm_fold_kept; [apply split_on_slash_free | constructor].
Qed.

(** The components of a normalised absolute path are those the loop of
    [normpath] keeps. *)
Lemma normpath_abs_comps s :
  startswith "/" s = true ->
  filter nonempty (split_on "/" (normpath s))
  = norm_comps true (split_on "/" s).
Proof.
  intros Hs. unfold normpath.
  destruct s as [|c s]; [discriminate|].
  cbn [String.eqb]. rewrite Hs.
  set (comps := norm_comps true (split_on "/" (String c s))).
  assert (Hk : Forall kept comps) by apply norm_comps_kept.
  unfold initial_slashes. rewrite Hs.
  destruct (startswith "//" (String c s) && negb (startswith "///" (String c s))).
  - cbn. now apply filter_split_join.
  - cbn. now apply filter_split_join.
Qed.

(** *** Absolute paths *)

Definition absolutize (fs : FS) (path : string) : string :=
  if isabs path then path else path_join (getcwd fs) path.

Lemma absolutize_startswith fs path : startswith "/" (absolutize fs path) = true.
Proof.
  unfold absolutize, isabs.
  destruct (startswith "/" path) eqn:E; [exact E|].
  unfold path_join. rewrite E. unfold getcwd.
  destruct (String.eqb _ "" || endswith_slash _);
    cbn [String.append]; now rewrite startswith_slash_cons.
Qed.

Lemma abs_comps_norm fs path :
  abs_comps fs path = norm_comps true (split_on "/" (absolutize fs path)).
Proof.
  unfold abs_comps, abspath. fold (absolutize fs path).
  apply normpath_abs_comps, absolutize_startswith.
Qed.

Lemma absolutize_app fs path x :
  path <> "" -> absolutize fs (path ++ x) = absolutize fs path ++ x.
Proof.
  intros Hne. unfold absolutize, isabs.
  rewrite startswith_slash_app by assumption.
  destruct (startswith "/" path) eqn:E; [reflexivity|].
  unfold path_join. rewrite startswith_slash_app by assumption. rewrite E.
  destruct (String.eqb (getcwd fs) "" || endswith_slash (getcwd fs));
    now rewrite !StrFacts.append_assoc.
Qed.

Lemma absolutize_endswith fs path :
  path <> "" -> endswith_slash (absolutize fs path) = endswith_slash path.
Proof.
  intros Hne. unfold absolutize, isabs.
  destruct (startswith "/" path) eqn:E; [reflexivity|].
  unfold path_join. rewrite E.
  destruct (String.eqb (getcwd fs) "" || endswith_slash (getcwd fs)).
  - now apply endswith_slash_app.
  - rewrite <- StrFacts.append_assoc. now apply endswith_slash_app.
Qed.

Lemma path_join_nonempty top name : top <> "" -> path_join top name <> "".
Proof.
  intros Hne. unfold path_join.
  destruct (startswith "/" name) eqn:E.
  - destruct name; [discriminate E | discriminate].
  - destruct (String.eqb top "" || endswith_slash top);
      destruct top; try contradiction; discriminate.
Qed.

(** Joining a valid name to a path adds one component. *)
Lemma abs_comps_join fs top name :
  top <> "" -> valid_name name = true ->
  abs_comps fs (path_join top name) = (abs_comps fs top ++ [name])%list.
Proof.
  intros Hne Hv. rewrite !abs_comps_norm.
  pose proof (valid_name_inv _ Hv) as (_ & Hs & _).
  unfold path_join. rewrite (startswith_slash_absent _ Hs).
  destruct (String.eqb_spec top ""); [contradiction|]. cbn [orb].
  destruct (endswith_slash top) eqn:He.
  - rewrite absolutize_app by assumption.
    rewrite <- (absolutize_endswith fs) in He by assumption.
    destruct (endswith_slash_inv _ He) as [t Ht]. rewrite Ht.
    rewrite StrFacts.append_assoc.
    change ("/" ++ name) with (String "/" name).
    change (t ++ "/") with (t ++ String "/" "").
    rewrite !StrFacts.split_on_app.
    rewrite (StrFacts.split_on_absent _ _ Hs).
    change (split_on "/" "") with [""].
    rewrite norm_comps_app_empty.
    apply norm_comps_app_valid. now constructor.
  - rewrite absolutize_app by assumption.
    change ("/" ++ name) with (String "/" name).
    rewrite StrFacts.split_on_app, (StrFacts.split_on_absent _ _ Hs).
    apply norm_comps_app_valid. now constructor.
Qed.

(** *** [relpath] and archive names *)

Lemma commonprefix_app l1 l2 : commonprefix l1 (l1 ++ l2) = l1.
Proof.
  induction l1 as [|a l1 IH]; [now destruct l2|].
  cbn. now rewrite String.eqb_refl, IH.
Qed.

(** A path below [start] is, relative to [start], its own additional
    components joined by slashes. *)
Lemma relpath_below fs path start rel :
  path <> "" -> rel <> [] ->
  Forall (fun x => valid_name x = true) rel ->
  abs_comps fs path = (abs_comps fs start ++ rel)%list ->
  relpath fs path start = Return (join "/" rel).
Proof.
  intros Hne Hrel Hv Hp. unfold relpath.
  destruct (String.eqb_spec path ""); [contradiction|].
  rewrite Hp, commonprefix_app, Nat.sub_diag, skipn_app.
  rewrite skipn_all, Nat.sub_diag. cbn [repeat skipn List.app].
  destruct rel as [|a p]; [contradiction|].
  now rewrite path_join_all_valid.
Qed.

Lemma lstrip_slash_id s : startswith "/" s = false -> Pathlib.lstrip_slash s = s.
Proof.
  destruct s as [|c s]; [reflexivity|].
  rewrite startswith_slash_cons. intros H. cbn [Pathlib.lstrip_slash].
  destruct c as [[] [] [] [] [] [] [] []]; try reflexivity. discriminate.
Qed.

Lemma zip_arcname_valid rel :
  rel <> [] -> Forall (fun x => valid_name x = true) rel ->
  zip_arcname (join "/" rel) = join "/" rel.
Proof.
  intros Hne Hv.
  destruct (join_valid_shape rel Hne Hv) as (Hj & Hs & _).
  unfold zip_arcname, normpath.
  destruct (String.eqb_spec (join "/" rel) ""); [contradiction|].
  rewrite Hs. unfold initial_slashes. rewrite Hs.
  rewrite split_join; [|assumption|].
  - rewrite norm_comps_valid by assumption. cbn [String.append].
    destruct (String.eqb_spec (join "/" rel) ""); [contradiction|].
    now apply lstrip_slash_id.
  - eapply Forall_impl; [|exact Hv]. intros x Hx.
    now apply valid_name_inv in Hx as (_ & ? & _).
Qed.


(** *** Trees *)

(** Induction over a tree, with the hypothesis for every entry of a
    directory. *)
Lemma node_ind' (P : node -> Prop) :
  (forall c, P (File c)) ->
  (forall es, Forall (fun e => P (snd e)) es -> P (Dir es)) ->
  forall n, P n.
Proof.
  intros HF HD. fix IH 1. intros [c|es]; [apply HF|].
  apply HD. induction es as [|e es IHes]; constructor; [apply IH | exact IHes].
Qed.

Lemma distinct_NoDup l : distinct l = true -> NoDup l.
Proof.
  induction l as [|x l IH]; [constructor|]. cbn [distinct]. intros H.
  apply andb_prop in H as [Hx Hl]. constructor; [|now apply IH].
  intros Hin. rewrite negb_true_iff in Hx.
  assert (existsb (String.eqb x) l = true); [|congruence].
  apply existsb_exists. exists x. split; [assumption | apply String.eqb_refl].
Qed.

Lemma wf_Dir_inv es :
  wf (Dir es) = true ->
  NoDup (map fst es)
  /\ forall name child, In (name, child) es ->
       valid_name name = true /\ wf child = true.
Proof.
  cbn [wf]. intros H. apply andb_prop in H as [Hd Hall].
  split; [now apply distinct_NoDup|].
  intros name child Hin.
  rewrite forallb_forall in Hall. specialize (Hall _ Hin).
  now apply andb_prop in Hall.
Qed.

Lemma assoc_Some_In name es child : assoc name es = Some child -> In (name, child) es.
Proof.
  induction es as [|[n c] es IH]; [discriminate|]. cbn [assoc].
  destruct (String.eqb_spec n name) as [->|Hn].
  - intros H. injection H as ->. now left.
  - intros H. right. now apply IH.
Qed.

Lemma assoc_In name es child :
  NoDup (map fst es) -> In (name, child) es -> assoc name es = Some child.
Proof.
  induction es as [|[n c] es IH]; [contradiction|]. cbn [map fst assoc].
  intros Hnd [Hin|Hin]; inversion Hnd as [|? ? Hnot Hnd']; subst.
  - injection Hin as -> ->. now rewrite String.eqb_refl.
  - destruct (String.eqb_spec n name) as [->|Hn]; [|now apply IH].
    exfalso. apply Hnot. apply in_map_iff. now exists (name, child).
Qed.

Lemma lookup_app n a b :
  lookup n (a ++ b)
  = match lookup n a with Some m => lookup m b | None => None end.
Proof.
  revert n. induction a as [|x a IH]; intros n; [reflexivity|].
  cbn [List.app lookup]. destruct n as [c|es]; [reflexivity|].
  destruct (assoc x es); [apply IH | reflexivity].
Qed.

Lemma assoc_In_lookup es name child :
  NoDup (map fst es) -> In (name, child) es ->
  match assoc name es with Some c => lookup c [] | None => None end = Some child.
Proof. intros Hnd Hin. now rewrite (assoc_In _ _ _ Hnd Hin). Qed.

(** *** The files below a directory *)

Lemma listing_Dir_In es p c :
  In (p, c) (listing (Dir es)) <->
  (exists name, p = [name] /\ In (name, File c) es)
  \/ (exists name child q,
        p = name :: q /\ In (name, child) es /\ In (q, c) (listing child)).
Proof.
  cbn [listing]. rewrite in_app_iff, !in_flat_map. split.
  - intros [([name child] & Hin & H)|([name child] & Hin & H)]; cbn [fst snd] in H.
    + destruct child as [c'|]; [|contradiction].
      destruct H as [H|[]]. injection H as <- <-. left. now exists name.
    + apply in_map_iff in H as ([q c'] & E & Hq). cbn [fst snd] in E.
      injection E as <- <-. right. now exists name, child, q.
  - intros [(name & -> & Hin)|(name & child & q & -> & Hin & Hq)].
    + left. exists (name, File c). split; [assumption|]. now left.
    + right. exists (name, child). split; [assumption|].
      apply in_map_iff. now exists (q, c).
Qed.



(** The listing holds exactly the files of the tree, under their paths. *)
Lemma listing_lookup n :
  wf n = true ->
  forall p c, In (p, c) (listing n) <-> p <> [] /\ lookup n p = Some (File c).
Proof.
  induction n as [c0|es IH] using node_ind'; intros Hwf p c.
  - split; [contradiction|]. intros [Hp H]. destruct p; [contradiction | discriminate].
  - apply wf_Dir_inv in Hwf as [Hnd Hes]. rewrite Forall_forall in IH.
    rewrite listing_Dir_In. split.
    + intros [(name & -> & Hin)|(name & child & q & -> & Hin & Hq)].
      * split; [discriminate|]. cbn [lookup]. now rewrite (assoc_In _ _ _ Hnd Hin).
      * split; [discriminate|]. cbn [lookup]. rewrite (assoc_In _ _ _ Hnd Hin).
        destruct (Hes _ _ Hin) as [_ Hw].
        now apply (IH _ Hin Hw).
    + intros [Hp H]. destruct p as [|name q]; [contradiction|].
      cbn [lookup] in H. destruct (assoc name es) as [child|] eqn:Ha; [|discriminate].
      apply assoc_Some_In in Ha.
      destruct q as [|x q].
      * cbn [lookup] in H. injection H as ->. left. now exists name.
      * right. exists name, child, (x :: q). split; [reflexivity|].
        split; [assumption|]. destruct (Hes _ _ Ha) as [_ Hw].
        apply (IH _ Ha Hw). split; [discriminate | assumption].
Qed.




(** *** Paths as the system follows them *)

Lemma resolve_step_empty root stack st :
  resolve_step root stack "" = Some st -> stack = Some st.
Proof.
  destruct stack as [st0|]; [|discriminate]. cbn [resolve_step].
  destruct (lookup root (rev st0)) as [[c|es]|]; try discriminate.
  cbn. congruence.
Qed.

Lemma resolve_step_name root st es name child :
  lookup root (rev st) = Some (Dir es) -> NoDup (map fst es) ->
  valid_name name = true -> In (name, child) es ->
  resolve_step root (Some st) name = Some (name :: st).
Proof.
  intros Hl Hnd Hv Hin. cbn [resolve_step]. rewrite Hl.
  apply valid_name_inv in Hv as (Hne & _ & Hd & Hdd).
  unfold nonempty in Hne. rewrite negb_true_iff in Hne.
  rewrite Hne, Hd, Hdd. cbn [orb rev].
  rewrite lookup_app, Hl. cbn [lookup].
  now rewrite (assoc_In _ _ _ Hnd Hin).
Qed.

(** Joining the name of an entry to the path of a directory leads to
    that entry. *)
Lemma realcomps_join fs top name comps es child :
  top <> "" -> realcomps fs top = Some comps ->
  lookup (root_dir fs) comps = Some (Dir es) -> NoDup (map fst es) ->
  valid_name name = true -> In (name, child) es ->
  realcomps fs (path_join top name) = Some (comps ++ [name])%list.
Proof.
  intros Hne Hr Hl Hnd Hv Hin. unfold realcomps in *.
  fold (absolutize fs top) in Hr. fold (absolutize fs (path_join top name)).
  pose proof (valid_name_inv _ Hv) as (_ & Hs & _).
  destruct (fold_left _ (split_on "/" (absolutize fs top)) (Some [])) as [st|] eqn:Hf;
    [|discriminate].
  cbn [option_map] in Hr. injection Hr as <-.
  assert (Hgoal : forall pre,
            fold_left (resolve_step (root_dir fs)) pre (Some []) = Some st ->
            option_map (@rev string)
              (fold_left (resolve_step (root_dir fs)) (pre ++ [name]) (Some []))
            = Some (rev st ++ [name])%list).
  { intros pre Hpre. rewrite fold_left_app, Hpre. cbn [fold_left].
    now rewrite (resolve_step_name _ _ _ _ _ Hl Hnd Hv Hin). }
  unfold path_join. rewrite (startswith_slash_absent _ Hs).
  destruct (String.eqb_spec top ""); [contradiction|]. cbn [orb].
  destruct (endswith_slash top) eqn:He.
  - rewrite absolutize_app by assumption.
    rewrite <- (absolutize_endswith fs) in He by assumption.
    destruct (endswith_slash_inv _ He) as [t Ht]. rewrite Ht in Hf |- *.
    rewrite StrFacts.append_assoc.
    change ("/" ++ name) with (String "/" name).
    change (t ++ "/") with (t ++ String "/" "") in Hf.
    rewrite StrFacts.split_on_app in Hf |- *.
    rewrite (StrFacts.split_on_absent _ _ Hs).
    change (split_on "/" "") with [""] in Hf.
    rewrite fold_left_app in Hf. cbn [fold_left] in Hf.
    apply resolve_step_empty in Hf. now apply Hgoal.
  - rewrite absolutize_app by assumption.
    change ("/" ++ name) with (String "/" name).
    rewrite StrFacts.split_on_app, (StrFacts.split_on_absent _ _ Hs).
    now apply Hgoal.
Qed.

Lemma wf_storable_Dir_inv es :
  storable (Dir es) = true ->
  forall name child, In (name, child) es -> storable child = true.
Proof.
  cbn [storable]. intros H name child Hin.
  rewrite forallb_forall in H. exact (H _ Hin).
Qed.

End OsFacts.

(* ================================================================== *)
(** ** boltz1.py *)
(* ================================================================== *)

Module Boltz1.
Import Py Os.

Definition models_dir : Pathlib.Path := Pathlib.parse "/models/boltz1".

Section Packaging.

(** The bytes of the closed archive for a list of members, as
    [zipfile] lays them out. *)
Variable zip_bytes : members -> bytes.

(** The body of the inner loop: one file of the directory [root]. *)
Definition write_file (fs : FS) (output_dir root : string)
                      (zipf : members) (file : string) : result members :=
  let file_path := path_join root file in
  rbind (relpath fs file_path output_dir) (fun arcname =>
  ZipFile_write fs zipf file_path arcname).

(** The body of the outer loop: one triple of the walk. *)
Definition write_files (fs : FS) (output_dir : string) (zipf : members)
                       (triple : string * list string * list string)
  : result members :=
  let '(root, _, files) := triple in
  fold_result (write_file fs output_dir root) files zipf.

Definition package_outputs (fs : FS) (output_dir : string) : result bytes :=
  let zipf : members := [] in
  rbind (fold_result (write_files fs output_dir) (os_walk fs output_dir) zipf)
        (fun zipf => Return (zip_bytes zipf)).

End Packaging.

(** *** Effects of the two functions *)

Inductive event :=
| Print (text : string)
| WriteText (path : Pathlib.Path) (text : string)
| Run (argv : list string)
| DownloadModelRemote (force_download : bool)
| Boltz1InferenceRemote (boltz_input_yaml : string) (args : string)
| ReadText (path : Pathlib.Path)
| Mkdir (path : Pathlib.Path)
| WriteBytes (path : Pathlib.Path) (data : bytes).

Definition is_run (e : event) : bool :=
  match e with Run _ => true | _ => false end.

(** *** The remote function *)

Section Inference.

Variable zip_bytes : members -> bytes.

(** The predictor: for an argument vector, its exit status and the file
    system of the container once it has exited. *)
Variable predictor : list string -> Z * FS.

(** [subprocess.run(argv, check=True)] *)
Definition subprocess_run_check (argv : list string) : M event FS :=
  emit (Run argv) ;;
  let (status, fs) := predictor argv in
  if Z.eqb status 0 then ret fs
  else raise (CalledProcessError (PyInt status) (CmdList argv)).

Definition boltz1_inference (boltz_input_yaml args : string) : M event bytes :=
  let input_path := Pathlib.parse "input.yaml" in
  emit (WriteText input_path boltz_input_yaml) ;;
  args <- lift (Shlex.split args) ;;
  emit (Print ("🧬 predicting structure using boltz model from "
               ++ Pathlib.str models_dir)) ;;
  fs <- subprocess_run_check
          (List.app [ "boltz"; "predict"; Pathlib.str input_path; "--cache";
                      Pathlib.str models_dir; "--use_msa_server" ] args) ;;
  emit (Print "🧬 packaging up outputs") ;;
  stem <- lift (Pathlib.with_suffix_empty input_path) ;;
  output_bytes <- lift (package_outputs zip_bytes fs
                          ("boltz_results_" ++ Pathlib.name stem)) ;;
  ret output_bytes.

End Inference.

(** *** The local entry point *)

Section Main.

(** Working directory of the caller, [Path.read_text], and the outcomes of
    the two remote calls. *)
Variable cwd : list string.
Variable read_text : Pathlib.Path -> result string.
Variable download_model_remote : bool -> result unit.
Variable boltz1_inference_remote : string -> string -> result bytes.

(** [f"{input}"] *)
Definition format_input (input : option string) : string :=
  match input with Some s => s | None => "None" end.

Definition is_None {A} (v : option A) : bool :=
  match v with None => true | Some _ => false end.

(** [boltz1_inference.remote(input_yaml)] leaves [args] at its default,
    the empty string; [out_dir] is read nowhere. *)
Definition main (force_download : bool) (input : option string)
                (args : string) (out_dir : string) : M event unit :=
  emit (Print "🧬 loading model remotely") ;;
  emit (DownloadModelRemote force_download) ;;
  lift (download_model_remote force_download) ;;
  input0 <- lift (Pathlib.Path_of input) ;;
  let input1 := Pathlib.resolve cwd input0 in
  let input2 := Pathlib.name input1 in
  (if is_None input then emit (Print "Provide input yaml by --input") else ret tt) ;;
  emit (ReadText input1) ;;
  input_yaml <- lift (read_text input1) ;;
  emit (Print ("🧬 running boltz with input from " ++ format_input input)) ;;
  emit (Boltz1InferenceRemote input_yaml "") ;;
  output <- lift (boltz1_inference_remote input_yaml "") ;;
  let output_path := Pathlib.parse ("boltz_" ++ input2 ++ "_result.zip") in
  emit (Mkdir (Pathlib.parent output_path)) ;;
  emit (Print ("🧬 writing output to " ++ Pathlib.str output_path)) ;;
  emit (WriteBytes output_path output) ;;
  emit (Print "DONE! 🎉").

End Main.

(** *** The entry point without an input path *)

(** C2: called with [input = None], [main] prints the loading message,
    calls [download_model] and then raises (a [TypeError] from
    [Path(None)] when the download returned): the text
    [Provide input yaml by --input] is never printed, because the test
    [input is None] comes after [Path(input)]. *)
Theorem main_without_input cwd read_text download_model_remote
        boltz1_inference_remote force_download args out_dir :
  let run := main cwd read_text download_model_remote boltz1_inference_remote
                  force_download None args out_dir in
  effects run = [ Print "🧬 loading model remotely";
                  DownloadModelRemote force_download ]
  /\ ~ In (Print "Provide input yaml by --input") (effects run)
  /\ is_raise (outcome run) = true
  /\ (is_raise (download_model_remote force_download) = false
       -> outcome run
          = Raise (TypeError "expected str, bytes or os.PathLike object, not NoneType")).
Proof.
  unfold main. cbn.
  destruct (download_model_remote force_download) as [[]|e]; cbn.
  - repeat split; try reflexivity.
    intros [H|[H|[]]]; discriminate.
  - repeat split; try reflexivity; try discriminate.
    intros [H|[H|[]]]; discriminate.
Qed.

Lemma main_without_input_witness :
  outcome (main ["home"; "user"] (fun _ => Return "version: 1")
                (fun _ => Return tt) (fun _ _ => Return []) false None "" "./")
  = Raise (TypeError "expected str, bytes or os.PathLike object, not NoneType").
Proof.
  apply (main_without_input ["home"; "user"] (fun _ => Return "version: 1")
           (fun _ => Return tt) (fun _ _ => Return []) false "" "./").
  reflexivity.
Defined.

(** *** Where the archive is written *)

(** C3: [main] never reads [out_dir], so its run is the same for every
    output directory; with input [/data/prot.yaml] and
    [out_dir = /tmp/out], called from [/home/user], the archive goes to the
    relative path [boltz_prot.yaml_result.zip], that is
    [/home/user/boltz_prot.yaml_result.zip], not below [/tmp/out]. *)
Theorem main_ignores_out_dir :
  (forall cwd read_text download_model_remote boltz1_inference_remote
          force_download input args out_dir out_dir',
     main cwd read_text download_model_remote boltz1_inference_remote
          force_download input args out_dir
     = main cwd read_text download_model_remote boltz1_inference_remote
            force_download input args out_dir')
  /\ (let cwd := ["home"; "user"] in
      let output := [Byte.x50; Byte.x4b] in
      let run := main cwd (fun _ => Return "version: 1") (fun _ => Return tt)
                      (fun _ _ => Return output)
                      false (Some "/data/prot.yaml") "" "/tmp/out" in
      let output_path := Pathlib.parse "boltz_prot.yaml_result.zip" in
      outcome run = Return tt
      /\ In (WriteBytes output_path output) (effects run)
      /\ (forall p data, In (WriteBytes p data) (effects run) -> p = output_path)
      /\ Pathlib.resolve cwd output_path
         = Pathlib.mkPath "/" ["home"; "user"; "boltz_prot.yaml_result.zip"]).
Proof.
  split; [reflexivity|].
  cbn zeta. split; [reflexivity|].
  split; [vm_compute; tauto|].
  split; [|reflexivity].
  intros p data H. vm_compute in H.
  repeat (destruct H as [H|H]; [try discriminate; now injection H as <- _|]).
  destruct H.
Qed.

(** *** The predictor call *)

(** The argument vector [boltz1_inference] builds for the extra tokens. *)
Definition predict_argv (tokens : list string) : list string :=
  List.app [ "boltz"; "predict"; "input.yaml"; "--cache"; "/models/boltz1";
             "--use_msa_server" ] tokens.

Definition announce : event :=
  Print "🧬 predicting structure using boltz model from /models/boltz1".

(** C7, as stated, fails: an extra-arguments string with an unclosed quote
    makes [shlex.split] raise after [input.yaml] is written, and the
    predictor is not run at all. *)
Lemma boltz1_inference_unclosed_quote :
  boltz1_inference (fun _ => []) (fun _ => (0%Z, mkFS (Dir []) []))
                   "version: 1" "--out 'x"
  = ([WriteText (Pathlib.parse "input.yaml") "version: 1"],
     Raise (ValueError "No closing quotation"))
  /\ forall argv,
       ~ In (Run argv)
            (effects (boltz1_inference (fun _ => [])
                        (fun _ => (0%Z, mkFS (Dir []) []))
                        "version: 1" "--out 'x")).
Proof.
  split; [reflexivity|].
  intros argv [H|[]]. discriminate.
Qed.

Lemma boltz1_inference_unfold zip_bytes predictor boltz_input_yaml args toks :
  Shlex.split args = Return toks ->
  boltz1_inference zip_bytes predictor boltz_input_yaml args
  = let started := [ WriteText (Pathlib.parse "input.yaml") boltz_input_yaml;
                     announce; Run (predict_argv toks) ] in
    let (status, fs) := predictor (predict_argv toks) in
    if Z.eqb status 0
    then (List.app started [Print "🧬 packaging up outputs"],
          package_outputs zip_bytes fs "boltz_results_input")
    else (started,
          Raise (CalledProcessError (PyInt status) (CmdList (predict_argv toks)))).
Proof.
  intros Hsplit. unfold boltz1_inference, subprocess_run_check.
  rewrite Hsplit. unfold predict_argv. cbn.
  destruct (predictor _) as [status fs].
  destruct (Z.eqb status 0); cbn; [|reflexivity].
  destruct (package_outputs zip_bytes fs "boltz_results_input"); reflexivity.
Qed.

(** *** How the extra arguments reach the predictor *)

Lemma yield_raise quoted token rest e :
  Shlex.yield quoted token rest = Raise e -> rest = Raise e.
Proof.
  unfold Shlex.yield. destruct (negb quoted && String.eqb token ""); [discriminate|].
  destruct rest; [discriminate | trivial].
Qed.

(** The lexer raises nothing but [ValueError]. *)
Lemma lex_raise s : forall st esc quoted token e,
  Shlex.lex st esc quoted token s = Raise e -> exists msg, e = ValueError msg.
Proof.
  induction s as [|c s IH]; intros st esc quoted token e H.
  - destruct st; cbn [Shlex.lex] in H;
      try (apply yield_raise in H; discriminate);
      injection H as <-; eexists; reflexivity.
  - destruct st; cbn [Shlex.lex] in H;
      repeat match type of H with
             | (if ?b then _ else _) = _ => destruct b
             end;
      try (apply yield_raise in H); eauto.
Qed.

(** The text a pair of quote characters [qc] keeps as it is. *)
Definition quoted_text (qc : ascii) (q : string) : Prop :=
  (qc = Shlex.squote /\ mem_char Shlex.squote q = false)
  \/ (qc = Shlex.dquote /\ mem_char Shlex.dquote q = false
      /\ mem_char Shlex.backslash q = false).

Lemma lex_quoted qc q esc quoted token s :
  quoted_text qc q ->
  Shlex.lex (Shlex.Quote qc) esc quoted token (q ++ String qc s)
  = Shlex.lex Shlex.Word esc true (token ++ q) s.
Proof.
  intros [[-> H]|(-> & H & Hb)].
  - now apply Shlex.lex_single_quoted.
  - now apply Shlex.lex_double_quoted.
Qed.

Lemma quoted_text_is_quote qc q : quoted_text qc q -> Shlex.is_quote qc = true.
Proof. intros [[-> _]|(-> & _)]; reflexivity. Qed.

(** A quoted part with plain text right before and right after it is one
    token, whether a blank and more arguments follow or the string ends. *)
Lemma split_quoted_then_rest pre qc q post rest ts :
  Shlex.plain pre = true -> quoted_text qc q -> Shlex.plain post = true ->
  Shlex.split rest = Return ts ->
  Shlex.split (pre ++ String qc (q ++ String qc (post ++ " " ++ rest)))
  = Return ((pre ++ q ++ post) :: ts).
Proof.
  intros Hpre Hq Hpost Hrest. unfold Shlex.split.
  rewrite (Shlex.lex_plain_then_quote pre qc _ Hpre (quoted_text_is_quote _ _ Hq)).
  rewrite (lex_quoted qc q _ _ _ _ Hq).
  rewrite (Shlex.lex_word_plain post _ _ _ _ Hpost).
  rewrite (Shlex.lex_word_blank_quoted _ _ _ _ Hrest).
  now rewrite StrFacts.append_assoc.
Qed.

Lemma split_quoted_at_end pre qc q post :
  Shlex.plain pre = true -> quoted_text qc q -> Shlex.plain post = true ->
  Shlex.split (pre ++ String qc (q ++ String qc post))
  = Return [pre ++ q ++ post].
Proof.
  intros Hpre Hq Hpost. unfold Shlex.split.
  rewrite (Shlex.lex_plain_then_quote pre qc _ Hpre (quoted_text_is_quote _ _ Hq)).
  rewrite (lex_quoted qc q _ _ _ _ Hq).
  rewrite <- (StrFacts.append_nil_r post) at 1.
  rewrite (Shlex.lex_word_plain post _ _ _ _ Hpost). cbn.
  now rewrite StrFacts.append_assoc.
Qed.

(** Every predictor run of [boltz1_inference] carries the tokens of its
    extra-arguments string. *)
Lemma boltz1_inference_Run zip_bytes predictor boltz_input_yaml args argv :
  In (Run argv) (effects (boltz1_inference zip_bytes predictor boltz_input_yaml args))
  <-> exists toks, Shlex.split args = Return toks /\ argv = predict_argv toks.
Proof.
  destruct (Shlex.split args) as [toks|e] eqn:Hsplit.
  - rewrite (boltz1_inference_unfold _ _ _ _ _ Hsplit). cbv zeta.
    destruct (predictor (predict_argv toks)) as [status fs].
    split.
    + intros H. exists toks. split; [reflexivity|].
      destruct (Z.eqb status 0); cbn in H;
        repeat (destruct H as [H|H]; [try discriminate; now injection H|]);
        destruct H.
    + intros (toks' & E & ->). injection E as <-.
      destruct (Z.eqb status 0); cbn; tauto.
  - unfold boltz1_inference. rewrite Hsplit. cbn. split.
    + intros [H|[]]. discriminate.
    + intros (toks & E & _). discriminate.
Qed.

(** C6: the predictor runs of [boltz1_inference] are exactly those with
    the six fixed arguments followed by the tokens [shlex.split] makes of
    the extra-arguments string.  For ["--sampling_steps 10"] these are the
    two tokens [--sampling_steps] and [10].  A part between single quotes
    (any text without a single quote) or double quotes (any text without
    double quote and backslash), blanks included, is kept inside one
    token together with the plain text right before and after it, both
    when a blank and further arguments follow and when the string ends. *)
Theorem boltz1_inference_splits_args zip_bytes predictor boltz_input_yaml :
  (forall args argv,
     In (Run argv) (effects (boltz1_inference zip_bytes predictor boltz_input_yaml args))
     <-> exists toks, Shlex.split args = Return toks /\ argv = predict_argv toks)
  /\ In (Run (predict_argv ["--sampling_steps"; "10"]))
        (effects (boltz1_inference zip_bytes predictor boltz_input_yaml
                                   "--sampling_steps 10"))
  /\ (forall pre qc q post rest ts,
        Shlex.plain pre = true -> quoted_text qc q -> Shlex.plain post = true ->
        Shlex.split rest = Return ts ->
        In (Run (predict_argv ((pre ++ q ++ post) :: ts)))
           (effects (boltz1_inference zip_bytes predictor boltz_input_yaml
                       (pre ++ String qc (q ++ String qc (post ++ " " ++ rest))))))
  /\ (forall pre qc q post,
        Shlex.plain pre = true -> quoted_text qc q -> Shlex.plain post = true ->
        In (Run (predict_argv [pre ++ q ++ post]))
           (effects (boltz1_inference zip_bytes predictor boltz_input_yaml
                       (pre ++ String qc (q ++ String qc post))))).
Proof.
  split; [intros; apply boltz1_inference_Run|].
  split; [apply boltz1_inference_Run; now eexists|].
  split.
  - intros pre qc q post rest ts Hpre Hq Hpost Hrest.
    apply boltz1_inference_Run. eexists. split; [|reflexivity].
    now apply split_quoted_then_rest.
  - intros pre qc q post Hpre Hq Hpost.
    apply boltz1_inference_Run. eexists. split; [|reflexivity].
    now apply split_quoted_at_end.
Qed.

Lemma boltz1_inference_splits_args_witness :
  In (Run [ "boltz"; "predict"; "input.yaml"; "--cache"; "/models/boltz1";
            "--use_msa_server"; "--out_dir=my results/run1"; "--sampling_steps"; "10" ])
     (effects (boltz1_inference (fun _ => []) (fun _ => (0%Z, mkFS (Dir []) []))
                 "version: 1"
                 ("--out_dir=" ++ String Shlex.squote
                    ("my results" ++ String Shlex.squote
                       ("/run1" ++ " " ++ "--sampling_steps 10"))))).
Proof.
  destruct (boltz1_inference_splits_args (fun _ => [])
              (fun _ => (0%Z, mkFS (Dir []) [])) "version: 1") as (_ & _ & H & _).
  apply (H "--out_dir=" Shlex.squote "my results" "/run1" "--sampling_steps 10"
           ["--sampling_steps"; "10"]); try reflexivity.
  left. split; reflexivity.
Defined.

(** C7 (amended): whatever the arguments, [boltz1_inference] first writes
    the input text to [input.yaml].  If [shlex.split] splits the
    extra-arguments string into tokens [toks], the predictor is then run
    exactly once, with the argument vector [boltz predict input.yaml
    --cache /models/boltz1 --use_msa_server] followed by [toks]; if the
    predictor exits with a non-zero status, the call raises
    [CalledProcessError] with that status and argument vector, and
    nothing happens after the run.  If [shlex.split] rejects the string,
    it does so with a [ValueError], which the call raises with the write
    of [input.yaml] as its only effect: the predictor is not run. *)
Theorem boltz1_inference_invocation zip_bytes predictor boltz_input_yaml args :
  (exists rest,
      effects (boltz1_inference zip_bytes predictor boltz_input_yaml args)
      = WriteText (Pathlib.parse "input.yaml") boltz_input_yaml :: rest)
  /\ match Shlex.split args with
     | Return toks =>
         (exists rest,
             effects (boltz1_inference zip_bytes predictor boltz_input_yaml args)
             = (WriteText (Pathlib.parse "input.yaml") boltz_input_yaml
                :: announce :: Run (predict_argv toks) :: rest)
             /\ Forall (fun e => is_run e = false) rest)
         /\ (fst (predictor (predict_argv toks)) <> 0%Z ->
             boltz1_inference zip_bytes predictor boltz_input_yaml args
             = ([ WriteText (Pathlib.parse "input.yaml") boltz_input_yaml;
                  announce; Run (predict_argv toks) ],
                Raise (CalledProcessError
                         (PyInt (fst (predictor (predict_argv toks))))
                         (CmdList (predict_argv toks)))))
     | Raise e =>
         (exists msg, e = ValueError msg)
         /\ boltz1_inference zip_bytes predictor boltz_input_yaml args
            = ([WriteText (Pathlib.parse "input.yaml") boltz_input_yaml], Raise e)
     end.
Proof.
  destruct (Shlex.split args) as [toks|e] eqn:Hsplit.
  - rewrite (boltz1_inference_unfold _ _ _ _ _ Hsplit). cbv zeta.
    destruct (predictor (predict_argv toks)) as [status fs].
    destruct (Z.eqb status 0) eqn:Hs; cbn [fst effects].
    + split; [eexists; reflexivity|]. split.
      * eexists. split; [reflexivity|]. repeat constructor.
      * intros Hne. apply Z.eqb_eq in Hs. contradiction.
    + split; [eexists; reflexivity|]. split.
      * eexists. split; [reflexivity|]. constructor.
      * intros _. reflexivity.
  - unfold boltz1_inference. rewrite Hsplit. cbn.
    split; [eexists; reflexivity|]. split; [|reflexivity].
    now apply (lex_raise args _ _ _ _ _ Hsplit).
Qed.

Lemma boltz1_inference_invocation_witness :
  boltz1_inference (fun _ => []) (fun _ => (2%Z, mkFS (Dir []) []))
                   "version: 1" "--sampling_steps 10"
  = ([ WriteText (Pathlib.parse "input.yaml") "version: 1";
       announce;
       Run [ "boltz"; "predict"; "input.yaml"; "--cache"; "/models/boltz1";
             "--use_msa_server"; "--sampling_steps"; "10" ] ],
     Raise (CalledProcessError (PyInt 2)
              (CmdList [ "boltz"; "predict"; "input.yaml"; "--cache";
                         "/models/boltz1"; "--use_msa_server";
                         "--sampling_steps"; "10" ]))).
Proof.
  destruct (boltz1_inference_invocation (fun _ => [])
              (fun _ => (2%Z, mkFS (Dir []) []))
              "version: 1" "--sampling_steps 10") as [_ H].
  change (Shlex.split "--sampling_steps 10")
    with (@Return (list string) ["--sampling_steps"; "10"]) in H.
  destruct H as [_ H]. apply H. discriminate.
Defined.

(** Whatever the arguments, the input text is written first. *)
Lemma boltz1_inference_writes_input zip_bytes predictor boltz_input_yaml args :
  exists rest,
    effects (boltz1_inference zip_bytes predictor boltz_input_yaml args)
    = WriteText (Pathlib.parse "input.yaml") boltz_input_yaml :: rest.
Proof.
  destruct (Shlex.split args) as [toks|e] eqn:Hsplit.
  - rewrite (boltz1_inference_unfold _ _ _ _ _ Hsplit). cbv zeta.
    destruct (predictor (predict_argv toks)) as [status fs].
    destruct (Z.eqb status 0); eexists; reflexivity.
  - unfold boltz1_inference. rewrite Hsplit. eexists; reflexivity.
Qed.

(** *** Packaging *)

Lemma fold_result_app {A B} (body : B -> A -> result B) xs ys acc :
  fold_result body (xs ++ ys) acc
  = rbind (fold_result body xs acc) (fold_result body ys).
Proof.
  revert acc. induction xs as [|x xs IH]; intros acc; [reflexivity|].
  cbn [List.app fold_result]. destruct (body acc x); [apply IH | reflexivity].
Qed.

Section Walk.

Variable fs : FS.
Variable output_dir : string.

(** The directory [n], known to the walk under the path [top], lies
    [rel] below [output_dir], and the system finds it under [top]. *)
Definition below (top : string) (rel : list string) (n : node) : Prop :=
  top <> ""
  /\ abs_comps fs top = (abs_comps fs output_dir ++ rel)%list
  /\ Forall (fun x => valid_name x = true) rel
  /\ exists comps, realcomps fs top = Some comps
                    /\ lookup (root_dir fs) comps = Some n.

Lemma below_child top rel es name child :
  below top rel (Dir es) -> NoDup (map fst es) ->
  valid_name name = true -> In (name, child) es ->
  below (path_join top name) (rel ++ [name]) child.
Proof.
  intros (Hne & Habs & Hv & comps & Hr & Hl) Hnd Hname Hin. unfold below.
  split; [now apply OsFacts.path_join_nonempty|].
  split; [|split].
  - rewrite OsFacts.abs_comps_join by assumption. now rewrite Habs, app_assoc.
  - apply Forall_app. split; [assumption | now constructor].
  - exists (comps ++ [name])%list. split.
    + now apply (OsFacts.realcomps_join fs top name comps es child).
    + rewrite OsFacts.lookup_app, Hl. cbn [lookup].
      now rewrite (OsFacts.assoc_In _ _ _ Hnd Hin).
Qed.

(** One file with a storable time stamp is stored under its joined
    relative path, with its status and content. *)
Lemma write_file_below top rel es name c zipf :
  below top rel (Dir es) -> NoDup (map fst es) ->
  valid_name name = true -> In (name, File c) es ->
  storable (File c) = true ->
  write_file fs output_dir top zipf name
  = Return (zipf ++ [(join "/" (rel ++ [name]), c)])%list.
Proof.
  intros Hb Hnd Hname Hin Hst.
  destruct (below_child _ _ _ _ _ Hb Hnd Hname Hin)
    as (Hne & Habs & Hv & comps & Hr & Hl).
  unfold write_file.
  rewrite (OsFacts.relpath_below fs _ output_dir (rel ++ [name]));
    [|assumption | now destruct rel | assumption | assumption].
  cbn [rbind]. unfold ZipFile_write, stat.
  destruct (String.eqb_spec (path_join top name) ""); [contradiction|].
  rewrite Hr, Hl. destruct c as [st content].
  cbn [storable] in Hst. unfold zip_year_ok in Hst.
  apply andb_prop in Hst as [H1 H2].
  apply Z.leb_le in H1. apply Z.leb_le in H2.
  destruct (Z.ltb_spec (st_mtime_year st) 1980); [lia|].
  destruct (Z.ltb_spec 2107 (st_mtime_year st)); [lia|].
  rewrite OsFacts.zip_arcname_valid; [reflexivity | now destruct rel | assumption].
Qed.

(** The files of one directory. *)
Lemma write_level top rel es :
  below top rel (Dir es) -> NoDup (map fst es) ->
  (forall name child, In (name, child) es ->
     valid_name name = true /\ storable child = true) ->
  forall l zipf,
    incl l es ->
    fold_result (write_file fs output_dir top) (nondirs_of l) zipf
    = Return (zipf ++ map (fun pc => (join "/" (rel ++ fst pc), snd pc))
                          (flat_map (fun e => match snd e with
                                              | File c => [([fst e], c)]
                                              | Dir _ => []
                                              end) l))%list.
Proof.
  intros Hb Hnd Hv. induction l as [|[name child] l IH]; intros zipf Hincl.
  - cbn. now rewrite app_nil_r.
  - assert (Hin : In (name, child) es) by (apply Hincl; now left).
    assert (Hl : incl l es) by (intros x Hx; apply Hincl; now right).
    destruct (Hv _ _ Hin) as [Hname Hst].
    destruct child as [c|es'].
    + change (nondirs_of ((name, File c) :: l)) with (name :: nondirs_of l).
      cbn [fold_result].
      rewrite (write_file_below _ _ _ _ _ _ Hb Hnd Hname Hin Hst).
      cbn [rbind]. rewrite (IH _ Hl). cbn [flat_map fst snd List.app map].
      now rewrite <- app_assoc.
    + change (nondirs_of ((name, Dir es') :: l)) with (nondirs_of l).
      rewrite (IH _ Hl). reflexivity.
Qed.

(** The whole walk below a directory writes the listing of the
    directory, in order, each file under its joined relative path. *)
Lemma walk_writes n :
  wf n = true -> storable n = true ->
  forall top rel zipf,
    below top rel n ->
    fold_result (write_files fs output_dir) (walk top n) zipf
    = Return (zipf ++ map (fun pc => (join "/" (rel ++ fst pc), snd pc))
                          (listing n))%list.
Proof.
  induction n as [c0|es IH] using OsFacts.node_ind';
    intros Hwf Hsto top rel zipf Hb.
  - cbn. now rewrite app_nil_r.
  - apply OsFacts.wf_Dir_inv in Hwf as [Hnd Hes]. rewrite Forall_forall in IH.
    pose proof (OsFacts.wf_storable_Dir_inv _ Hsto) as Hs.
    cbn [walk fold_result write_files listing].
    rewrite (write_level top rel es Hb Hnd
               (fun n c H => conj (proj1 (Hes n c H)) (Hs n c H)) es);
      [|apply incl_refl].
    cbn [rbind]. rewrite map_app, app_assoc.
    set (z1 := (zipf ++ _)%list). clearbody z1.
    assert (Hsub : forall l z, incl l es ->
      fold_result (write_files fs output_dir)
                  (flat_map (fun e => walk (path_join top (fst e)) (snd e)) l) z
      = Return (z ++ map (fun pc => (join "/" (rel ++ fst pc), snd pc))
                  (flat_map (fun e => map (fun pc => (fst e :: fst pc, snd pc))
                                          (listing (snd e))) l))%list).
    { induction l as [|[name child] l IHl]; intros z Hincl.
      - cbn. now rewrite app_nil_r.
      - assert (Hin : In (name, child) es) by (apply Hincl; now left).
        assert (Hl : incl l es) by (intros x Hx; apply Hincl; now right).
        destruct (Hes _ _ Hin) as [Hv Hw].
        cbn [flat_map fst snd]. rewrite fold_result_app.
        pose proof (IH _ Hin Hw (Hs _ _ Hin)) as IHc. cbn [snd] in IHc.
        rewrite (IHc _ (rel ++ [name])%list z
                     (below_child _ _ _ _ _ Hb Hnd Hv Hin)).
        cbn [rbind]. rewrite (IHl _ Hl).
        rewrite map_app, map_map, <- app_assoc. cbn [fst snd].
        do 3 f_equal. apply map_ext. intros [q c]. cbn [fst snd].
        now rewrite <- app_assoc. }
    apply Hsub, incl_refl.
Qed.

Lemma below_root es :
  stat fs output_dir = Some (Dir es) -> below output_dir [] (Dir es).
Proof.
  unfold below, stat. intros H.
  destruct (String.eqb_spec output_dir "") as [->|Hne]; [discriminate|].
  rewrite app_nil_r. repeat split; auto.
  destruct (realcomps fs output_dir) as [comps|]; [|discriminate].
  now exists comps.
Qed.

End Walk.




(** A results directory with a file, a nested file and an empty
    directory, in the working directory [/root]. *)
Definition sample_results : list (string * node) :=
  [ ("predictions",
     Dir [ ("input",
            Dir [ ("input_model_0.cif", File (mkStat 2024 420, [Byte.x64; Byte.x61])) ]) ]);
    ("processed", Dir []);
    ("run.log", File (mkStat 2024 420, [Byte.x6f; Byte.x6b])) ].

Definition sample_fs : FS :=
  mkFS (Dir [ ("root", Dir [ ("boltz_results_input", Dir sample_results);
                             ("input.yaml", File (mkStat 2024 420, [])) ]) ])
       ["root"].

(** A stand-in for the archive layout: the contents, one after another. *)
Definition contents (ms : members) : bytes := flat_map (fun m => snd (snd m)) ms.


Example package_outputs_sample :
  fold_result (write_files sample_fs "boltz_results_input")
              (os_walk sample_fs "boltz_results_input") []
  = Return [ ("run.log", (mkStat 2024 420, [Byte.x6f; Byte.x6b]));
             ("predictions/input/input_model_0.cif",
              (mkStat 2024 420, [Byte.x64; Byte.x61])) ].
Proof. reflexivity. Qed.

End Boltz1.

(* ================================================================== *)
(** ** More about the sweep and the training call *)
(* ================================================================== *)

Module DreamboothFacts.
Import Py Dreambooth.

(** *** Which records the sweep holds *)

(** The sweep holds a record for every pair of a step count and a rank
    of the two lists, and no other record. *)
Theorem generate_sweep_configs_In sweep_config c :
  In c (generate_sweep_configs sweep_config)
  <-> exists steps rk,
        In steps (train_steps sweep_config) /\ In rk (ranks sweep_config)
        /\ c = sweep_record sweep_config steps rk.
Proof.
  unfold generate_sweep_configs. rewrite in_map_iff. split.
  - intros ([steps rk] & <- & H). apply product_In in H as [Hs Hr].
    now exists steps, rk.
  - intros (steps & rk & Hs & Hr & ->). exists (steps, rk).
    split; [reflexivity|]. now apply product_In.
Qed.

(** The sweep is empty exactly when one of the two lists is. *)
Theorem generate_sweep_configs_nil sweep_config :
  generate_sweep_configs sweep_config = []
  <-> train_steps sweep_config = [] \/ ranks sweep_config = [].
Proof.
  pose proof (generate_sweep_configs_length sweep_config) as Hlen.
  split.
  - intros H. rewrite H in Hlen. cbn [List.length] in Hlen.
    destruct (train_steps sweep_config); [now left|].
    destruct (ranks sweep_config); [now right|]. cbn in Hlen. lia.
  - intros H. apply length_zero_iff_nil. rewrite Hlen.
    destruct H as [-> | ->]; cbn [List.length]; lia.
Qed.

(** *** Where a record's output goes *)

(** For all integers, negative ones included, the output directory of a
    record is the entry [steps_{steps}_rank_{rank}] of [MODEL_DIR]
    itself: one component below [/model], never elsewhere. *)
Theorem sweep_record_output_dir_in_MODEL_DIR sweep_config steps rk :
  let p := output_dir (sweep_record sweep_config steps rk) in
  Pathlib.parent p = Pathlib.parse MODEL_DIR
  /\ Pathlib.name p = steps_rank_name steps rk
  /\ Pathlib.str p = MODEL_DIR ++ "/" ++ steps_rank_name steps rk.
Proof.
  cbn zeta. cbn [output_dir sweep_record].
  rewrite sweep_output_dir_parts. repeat split.
Qed.

(** Two records of a sweep have the same output directory exactly when
    they were built from the same step count and rank: the path encodes
    both values. *)
Theorem sweep_record_output_dir_iff sweep_config s r s' r' :
  output_dir (sweep_record sweep_config s r)
  = output_dir (sweep_record sweep_config s' r')
  <-> s = s' /\ r = r'.
Proof.
  split.
  - intros H. apply sweep_record_output_dir_inj in H. now injection H.
  - now intros [-> ->].
Qed.

(** *** The training command *)

(** [config] with another value in its [rank] field. *)
Definition with_rank (config : Config) (rk : Z) : Config := {|
  max_train_steps := max_train_steps config;
  rank := rk;
  model_name := model_name config;
  instance_prompt := instance_prompt config;
  dataset_name := dataset_name config;
  caption_column := caption_column config;
  resolution := resolution config;
  train_batch_size := train_batch_size config;
  gradient_accumulation_steps := gradient_accumulation_steps config;
  lr_scheduler := lr_scheduler config;
  lr_warmup_steps := lr_warmup_steps config;
  checkpointing_steps := checkpointing_steps config;
  seed := seed config;
  output_dir := output_dir config
|}.

(** The training command never reads the [rank] field: no argument of it
    starts with [--rank], and changing the field alone leaves the whole
    command, and so the whole run of [train] up to its result, unchanged. *)
Theorem train_cmd_ignores_rank config rk :
  train_cmd (with_rank config rk) = train_cmd config
  /\ Forall (fun arg => startswith "--rank" arg = false) (train_cmd config)
  /\ forall child,
       effects (train child (with_rank config rk)) = effects (train child config).
Proof.
  split; [reflexivity|]. split.
  - unfold train_cmd. cbn [USE_WANDB List.app]. repeat constructor.
  - intros child. unfold train.
    change (train_cmd (with_rank config rk)) with (train_cmd config).
    destruct (_exec_subprocess child (train_cmd config)) as [l [[]|e]]; reflexivity.
Qed.

(** For every record of a sweep, the [--output_dir] argument handed to
    the training script is the very path from which [Model.load_model]
    later loads the weights for the name [run] derives from the record. *)
Theorem train_cmd_output_dir_is_load_path sweep_config :
  Forall (fun c => In ("--output_dir=" ++ load_model_path (run_model_dir c))
                      (train_cmd c))
         (generate_sweep_configs sweep_config).
Proof.
  apply Forall_forall. intros c Hc.
  apply generate_sweep_configs_In in Hc as (steps & rk & _ & _ & ->).
  unfold train_cmd.
  replace (Pathlib.str (output_dir (sweep_record sweep_config steps rk)))
    with (load_model_path (run_model_dir (sweep_record sweep_config steps rk))).
  - cbn [List.app In]. do 7 right. now left.
  - cbn [output_dir sweep_record]. rewrite sweep_output_dir_parts. reflexivity.
Qed.

(** *** Failure of the training subprocess *)

(** The wrapper forwards every line the child wrote, in order and without
    adding line ends, before it looks at the exit status: the effects are
    the same whether the child succeeds or fails. *)
Theorem _exec_subprocess_forwards_output child cmd :
  effects (_exec_subprocess child cmd)
  = Popen cmd :: map (fun line => Print line "") (fst (child cmd)).
Proof.
  destruct (Z.eq_dec (snd (child cmd)) 0) as [H|H].
  - now rewrite (_exec_subprocess_zero child cmd H).
  - now rewrite (_exec_subprocess_nonzero child cmd H).
Qed.

(** When the training subprocess exits with a non-zero status, [train]
    raises [CalledProcessError] and does not commit the volume. *)
Theorem train_failure_no_commit child config :
  snd (child (train_cmd config)) <> 0%Z ->
  outcome (train child config)
  = Raise (CalledProcessError (PyBool true) (CmdStr (join nl (train_cmd config))))
  /\ ~ In VolumeCommit (effects (train child config)).
Proof.
  intros H. unfold train.
  rewrite (_exec_subprocess_nonzero child _ H). cbn.
  split; [reflexivity|].
  intros [Hc|[Hc|[Hc|Hc]]]; try discriminate.
  apply in_map_iff in Hc as (l & Hl & _). discriminate.
Qed.

Lemma train_failure_no_commit_witness :
  outcome (train (fun _ => (["CUDA out of memory" ++ nl], 1%Z))
                 (sweep_record SweepConfig_default 2000 8))
  = Raise (CalledProcessError (PyBool true)
             (CmdStr (join nl (train_cmd (sweep_record SweepConfig_default 2000 8)))))
  /\ ~ In VolumeCommit
          (effects (train (fun _ => (["CUDA out of memory" ++ nl], 1%Z))
                          (sweep_record SweepConfig_default 2000 8))).
Proof.
  apply (train_failure_no_commit (fun _ => (["CUDA out of memory" ++ nl], 1%Z))
           (sweep_record SweepConfig_default 2000 8)).
  discriminate.
Defined.

End DreamboothFacts.

(* ================================================================== *)
(** ** Facts about [pathlib] paths *)
(* ================================================================== *)

Module PathFacts.
Import Py.

(** A non-empty string without a slash, other than [.], is parsed as the
    relative path of that one component. *)
Lemma parse_component x :
  mem_char "/" x = false -> x <> "" -> x <> "." ->
  Pathlib.parse x = Pathlib.mkPath "" [x].
Proof.
  intros Hs Hne Hdot. unfold Pathlib.parse, Pathlib.splitroot.
  rewrite (OsFacts.startswith_slash_absent _ Hs).
  rewrite (StrFacts.split_on_absent _ _ Hs). cbn [filter].
  unfold Pathlib.keep_comp.
  destruct (String.eqb_spec x ""); [contradiction|].
  destruct (String.eqb_spec x "."); [contradiction|]. reflexivity.
Qed.

Lemma truediv_component p x :
  mem_char "/" x = false -> x <> "" -> x <> "." ->
  Pathlib.truediv p x = Pathlib.mkPath (Pathlib.root p) (Pathlib.parts p ++ [x]).
Proof.
  intros Hs Hne Hdot. unfold Pathlib.truediv.
  now rewrite (parse_component x Hs Hne Hdot).
Qed.

Lemma str_component x : x <> "" -> Pathlib.str (Pathlib.mkPath "" [x]) = x.
Proof.
  intros Hne. unfold Pathlib.str. cbn.
  destruct (String.eqb_spec x ""); [contradiction | reflexivity].
Qed.

(** The components of a parsed path hold no slash. *)
Lemma parse_parts_slash_free s : Forall OsFacts.slash_free (Pathlib.parts (Pathlib.parse s)).
Proof.
  unfold Pathlib.parse. destruct (Pathlib.splitroot s) as [r rel].
  cbn [Pathlib.parts]. apply Forall_forall. intros x Hx.
  apply filter_In in Hx as [Hx _].
  pose proof (OsFacts.split_on_slash_free rel) as H.
  rewrite Forall_forall in H. now apply H.
Qed.

Lemma collapse_slash_free comps : forall stack,
  Forall OsFacts.slash_free stack -> Forall OsFacts.slash_free comps ->
  Forall OsFacts.slash_free (Pathlib.collapse stack comps).
Proof.
  induction comps as [|c comps IH]; intros stack Hst Hc; cbn [Pathlib.collapse].
  - now apply Forall_rev.
  - inversion Hc; subst. destruct (String.eqb c "..").
    + apply IH; [|assumption]. destruct stack; [constructor | now inversion Hst].
    + apply IH; [now constructor | assumption].
Qed.

(** The name of a resolved path holds no slash. *)
Lemma resolve_name_slash_free cwd s :
  Forall OsFacts.slash_free cwd ->
  mem_char "/" (Pathlib.name (Pathlib.resolve cwd (Pathlib.parse s))) = false.
Proof.
  intros Hcwd. unfold Pathlib.name, Pathlib.resolve. cbn [Pathlib.parts].
  set (l := Pathlib.collapse [] _).
  assert (Hl : Forall OsFacts.slash_free l).
  { apply collapse_slash_free; [constructor|].
    destruct (String.eqb _ ""); [apply Forall_app; split|];
      auto using parse_parts_slash_free. }
  clearbody l. induction Hl as [|x l Hx Hl IH]; [reflexivity|].
  destruct l; [exact Hx | exact IH].
Qed.

End PathFacts.

(* ================================================================== *)
(** ** dreambooth_app_no_lora.py: images, evaluation and the sweep driver *)
(* ================================================================== *)

Module DreamboothDriver.
Import Py Dreambooth.

(** *** [load_images] *)

(** What goes wrong in [load_images]: an exception of a call it makes, or
    the read of the local [ii] before the loop has bound it. *)
Inductive failure :=
| Propagated (e : exn)
| UnboundLocalError (name : string).

Section LoadImages.

Variable Image : Type.

(** [smart_open.open(url, "rb")] followed by [PIL.Image.open]: the image
    behind a URL, or the exception raised on the way. *)
Variable fetch : string -> result Image.

Inductive image_event :=
| MkdirParents (path : Pathlib.Path)
| OpenUrl (url : string)
| SaveImage (image : Image) (path : Pathlib.Path)
| PrintLine (text : string).

Definition img_path : Pathlib.Path := Pathlib.parse "/img".

(** The loop over [enumerate(image_urls)], from index [ii] on; [bound] is
    the value the local [ii] holds so far, if any, and the result is the
    value it holds after the loop. *)
Fixpoint save_from (ii : nat) (bound : option nat) (image_urls : list string)
  : M image_event (option nat) :=
  match image_urls with
  | [] => ret bound
  | url :: rest =>
      emit (OpenUrl url) ;;
      image <- lift (fetch url) ;;
      emit (SaveImage image
              (Pathlib.truediv img_path (str_of_int (Z.of_nat ii) ++ ".png"))) ;;
      save_from (S ii) (Some ii) rest
  end.

Definition load_images (image_urls : list string)
  : list image_event * (failure + Pathlib.Path) :=
  let (l, r) := (emit (MkdirParents img_path) ;; save_from 0 None image_urls) in
  match r with
  | Raise e => (l, inl (Propagated e))
  | Return None => (l, inl (UnboundLocalError "ii"))
  | Return (Some ii) =>
      ((l ++ [PrintLine (str_of_int (Z.of_nat ii + 1) ++ " images loaded")])%list,
       inr img_path)
  end.

End LoadImages.

Arguments MkdirParents {Image} path.
Arguments OpenUrl {Image} url.
Arguments SaveImage {Image} image path.
Arguments PrintLine {Image} text.
Arguments load_images {Image} fetch image_urls.
Arguments save_from {Image} fetch ii bound image_urls.

(** The file the image at index [ii] is saved to. *)
Definition png_path (ii : nat) : Pathlib.Path :=
  Pathlib.mkPath "/" ["img"; str_of_int (Z.of_nat ii) ++ ".png"].

Lemma png_name_facts a :
  mem_char "/" a = false ->
  mem_char "/" (a ++ ".png") = false /\ a ++ ".png" <> "" /\ a ++ ".png" <> ".".
Proof.
  intros H. split; [now rewrite StrFacts.mem_char_app, H|].
  destruct a as [|c [|d a]]; split; discriminate.
Qed.

Lemma truediv_png ii :
  Pathlib.truediv img_path (str_of_int (Z.of_nat ii) ++ ".png") = png_path ii.
Proof.
  destruct (png_name_facts (str_of_int (Z.of_nat ii))) as (H1 & H2 & H3).
  { now apply str_of_int_chars. }
  now rewrite PathFacts.truediv_component.
Qed.

Lemma png_path_inj i j : png_path i = png_path j -> i = j.
Proof.
  unfold png_path. intros H.
  apply (f_equal (fun p => nth 1 (Pathlib.parts p) "")) in H. cbn [nth Pathlib.parts] in H.
  change ".png" with (String "." "png") in H.
  apply StrFacts.append_sep_inj in H as [H _];
    try (apply str_of_int_chars; reflexivity).
  apply str_of_int_inj in H. now apply Nat2Z.inj.
Qed.

(** The effects of the loop when every URL can be fetched. *)
Definition saved {Image} (picture : string -> Image) (ii : nat)
                 (image_urls : list string) : list (image_event Image) :=
  flat_map (fun iu => [OpenUrl (snd iu); SaveImage (picture (snd iu)) (png_path (fst iu))])
           (combine (seq ii (List.length image_urls)) image_urls).

Lemma save_from_all {Image} (fetch : string -> result Image) picture image_urls :
  (forall url, In url image_urls -> fetch url = Return (picture url)) ->
  forall ii bound,
    save_from fetch ii bound image_urls
    = (saved picture ii image_urls,
       Return (match image_urls with
               | [] => bound
               | _ => Some (ii + List.length image_urls - 1)
               end)).
Proof.
  induction image_urls as [|url rest IH]; intros Hf ii bound; [reflexivity|].
  cbn [save_from]. rewrite (Hf url) by now left. rewrite truediv_png.
  rewrite IH by (intros u Hu; apply Hf; now right).
  unfold saved. cbn. do 3 f_equal.
  destruct rest; cbn [List.length]; f_equal; lia.
Qed.

(** Called with no URL, [load_images] creates [/img] and then fails at its
    final [print]: the loop variable [ii] was never bound. *)
Theorem load_images_nil (Image : Type) (fetch : string -> result Image) :
  load_images fetch []
  = ([MkdirParents img_path], inl (UnboundLocalError "ii")).
Proof. reflexivity. Qed.

(** Called with n >= 1 URLs that can all be fetched, [load_images] opens
    them in order, saves the i-th image (from 0) as [/img/i.png], prints
    [n images loaded] and returns [/img]; the n files are distinct. *)
Theorem load_images_all (Image : Type) (fetch : string -> result Image)
        (picture : string -> Image) image_urls :
  image_urls <> [] ->
  (forall url, In url image_urls -> fetch url = Return (picture url)) ->
  load_images fetch image_urls
  = ((MkdirParents img_path :: saved picture 0 image_urls
      ++ [PrintLine (str_of_int (Z.of_nat (List.length image_urls)) ++ " images loaded")])%list,
     inr img_path)
  /\ NoDup (map png_path (seq 0 (List.length image_urls))).
Proof.
  intros Hne Hf. split.
  - unfold load_images. cbn [bind emit]. rewrite (save_from_all fetch picture _ Hf).
    destruct image_urls as [|u rest]; [contradiction|].
    cbn [List.app].
    replace (Z.of_nat (0 + List.length (u :: rest) - 1) + 1)%Z
      with (Z.of_nat (List.length (u :: rest))) by (cbn [List.length]; lia).
    reflexivity.
  - apply NoDup_map_NoDup_ForallPairs; [|apply seq_NoDup].
    intros i j _ _. apply png_path_inj.
Qed.

Lemma load_images_all_witness :
  load_images (fun url => Return url) ["https://a/1.jpg"; "https://a/2.jpg"]
  = ([ MkdirParents img_path;
       OpenUrl "https://a/1.jpg"; SaveImage "https://a/1.jpg" (png_path 0);
       OpenUrl "https://a/2.jpg"; SaveImage "https://a/2.jpg" (png_path 1);
       PrintLine "2 images loaded" ],
     inr img_path)
  /\ NoDup (map png_path (seq 0 2)).
Proof.
  apply (load_images_all string (fun url => Return url) (fun url => url)
           ["https://a/1.jpg"; "https://a/2.jpg"]).
  - discriminate.
  - reflexivity.
Defined.

(** When a URL cannot be fetched, the images before it are saved, the
    exception propagates, and neither a later URL is opened nor the final
    line printed. *)
Theorem load_images_failure (Image : Type) (fetch : string -> result Image)
        (picture : string -> Image) before bad after e :
  (forall url, In url before -> fetch url = Return (picture url)) ->
  fetch bad = Raise e ->
  load_images fetch (before ++ bad :: after)
  = ((MkdirParents img_path :: saved picture 0 before ++ [OpenUrl bad])%list,
     inl (Propagated e)).
Proof.
  intros Hf Hbad. unfold load_images. cbn [bind emit].
  assert (H : forall ii bound,
             save_from fetch ii bound (before ++ bad :: after)
             = ((saved picture ii before ++ [OpenUrl bad])%list, Raise e)).
  { clear -Hf Hbad. induction before as [|url rest IH]; intros ii bound.
    - cbn. now rewrite Hbad.
    - cbn [List.app save_from]. rewrite (Hf url) by now left. rewrite truediv_png.
      rewrite IH by (intros u Hu; apply Hf; now right). reflexivity. }
  now rewrite H.
Qed.

Lemma load_images_failure_witness :
  load_images (fun url => if String.eqb url "gone" then Raise (FileNotFoundError url)
                          else Return url)
              (["a"] ++ "gone" :: ["b"])
  = ([ MkdirParents img_path; OpenUrl "a"; SaveImage "a" (png_path 0); OpenUrl "gone" ],
     inl (Propagated (FileNotFoundError "gone"))).
Proof.
  apply (load_images_failure string _ (fun url => url) ["a"] "gone" ["b"]).
  - intros url [<-|[]]. reflexivity.
  - reflexivity.
Defined.

(** *** [Model], [evaluate_model] and [run] *)

(** Iteration over the results a remote [map] or [starmap] yields, in
    input order: the body runs for each returned value.  The theorems
    below use it only where every call returns; where the platform lets a
    raised exception surface is not fixed by the source. *)
Fixpoint for_results {E A} (results : list (result A)) (body : A -> M E unit)
  : M E unit :=
  match results with
  | [] => ret tt
  | Return a :: rest => body a ;; for_results rest body
  | Raise e :: _ => raise e
  end.

Section Driver.

Variable Image : Type.

(** The images the pipeline generates, with the weights loaded from a
    path, for a prompt and a number of inference steps. *)
Variable pipeline_images : string -> string -> Z -> list Image.

(** The outcome of [train] for each configuration handed to [train.map]. *)
Variable train_remote : Config -> result Config.

Record Model := mkModel { hyperparameter_model_dir : string }.

(** [Model.inference], on a container whose [load_model] loaded the
    weights at [f"{MODEL_DIR}/{self.hyperparameter_model_dir}"]. *)
Definition inference (self : Model) (text : string) (config : AppConfig)
  : result (Image * string) :=
  match pipeline_images (load_model_path (hyperparameter_model_dir self))
                        text (num_inference_steps config) with
  | image :: _ => Return (image, text)
  | [] => Raise (IndexError "list index out of range")
  end.

Inductive event :=
| TrainMap (configs : list Config)
| WandbInit (project name : string)
| WandbLog (key : string) (image : Image)
| WandbExit.

Definition evaluate_model (hyperparameter_model_dir : string) : M event unit :=
  let sweep_config := SweepConfig_default in
  let app_config := AppConfig_default in
  for_results
    (map (fun x => inference (mkModel hyperparameter_model_dir) x app_config)
         (heroicon_test_prompts sweep_config))
    (fun '(image, prompt) =>
       emit (WandbLog ("test_image/" ++ hyperparameter_model_dir ++ "/" ++ prompt)
                      image)).

(** [with wandb.init(project=..., name=...) as run: body]: the exit of the
    [with] block is reached whether or not the body raises. *)
Definition with_wandb_init (project name : string) (body : M event unit)
  : M event unit :=
  emit (WandbInit project name) ;;
  let (l, r) := body in ((l ++ [WandbExit])%list, r).

(** The parameter [max_train_steps] is read nowhere. *)
Definition run (max_train_steps : Z) : M event unit :=
  let sweep_config := SweepConfig_default in
  let configs := generate_sweep_configs sweep_config in
  emit (TrainMap configs) ;;
  for_results (map train_remote configs)
    (fun config =>
       with_wandb_init "flux-lora-sweep-heroicons-11-16-dreambooth-no-lora"
                       "sweep_summary"
                       (evaluate_model (run_model_dir config))).

End Driver.

Arguments TrainMap {Image} configs.
Arguments WandbInit {Image} project name.
Arguments WandbLog {Image} key image.
Arguments WandbExit {Image}.
Arguments inference {Image} pipeline_images self text config.
Arguments evaluate_model {Image} pipeline_images hyperparameter_model_dir.
Arguments run {Image} pipeline_images train_remote max_train_steps.

(** The log entries of one evaluation when every prompt yields an image. *)
Definition logged {Image} (first_image : string -> Image) (dir : string)
  : list (event Image) :=
  map (fun prompt => WandbLog ("test_image/" ++ dir ++ "/" ++ prompt) (first_image prompt))
      (heroicon_test_prompts SweepConfig_default).

Definition log_key {Image} (e : event Image) : string :=
  match e with WandbLog key _ => key | _ => "" end.

Lemma for_results_inference {Image} (pipeline_images : string -> string -> Z -> list Image)
      (first_image : string -> Image) dir prompts :
  (forall prompt, In prompt prompts ->
     exists more, pipeline_images (load_model_path dir) prompt 25%Z
                  = first_image prompt :: more) ->
  for_results
    (map (fun x => inference pipeline_images (mkModel dir) x AppConfig_default) prompts)
    (fun '(image, prompt) =>
       emit (WandbLog ("test_image/" ++ dir ++ "/" ++ prompt) image))
  = (map (fun prompt => WandbLog ("test_image/" ++ dir ++ "/" ++ prompt)
                                 (first_image prompt)) prompts,
     Return tt).
Proof.
  induction prompts as [|x prompts IH]; intros H; [reflexivity|].
  cbn [map for_results]. unfold inference at 1.
  cbn [hyperparameter_model_dir num_inference_steps AppConfig_default].
  destruct (H x) as [more ->]; [now left|].
  rewrite IH by (intros q Hq; apply H; now right). reflexivity.
Qed.

(** When the pipeline yields an image for each of the five test prompts
    (with the weights of [/model/<dir>] and 25 inference steps),
    [evaluate_model] logs the first image of each prompt, in prompt order,
    under the key [test_image/<dir>/<prompt>]; the five keys are distinct,
    so no entry replaces another. *)
Theorem evaluate_model_logs (Image : Type)
        (pipeline_images : string -> string -> Z -> list Image)
        (first_image : string -> Image) dir :
  (forall prompt, In prompt (heroicon_test_prompts SweepConfig_default) ->
     exists more, pipeline_images (load_model_path dir) prompt 25%Z
                  = first_image prompt :: more) ->
  evaluate_model pipeline_images dir = (logged first_image dir, Return tt)
  /\ NoDup (map log_key (logged first_image dir)).
Proof.
  intros H. split.
  - unfold evaluate_model. now apply for_results_inference.
  - unfold logged. rewrite map_map. cbn [log_key].
    apply NoDup_map_NoDup_ForallPairs.
    + intros p q _ _ E.
      apply StrFacts.append_inv_head in E. apply StrFacts.append_inv_head in E.
      now apply StrFacts.append_inv_head in E.
    + cbn. repeat constructor; cbn; intuition discriminate.
Qed.

Lemma evaluate_model_logs_witness :
  evaluate_model (fun path prompt steps => [path ++ ":" ++ prompt]) "steps_2000_rank_8"
  = (logged (fun prompt => "/model/steps_2000_rank_8:" ++ prompt) "steps_2000_rank_8",
     Return tt)
  /\ NoDup (map log_key
              (logged (fun prompt => "/model/steps_2000_rank_8:" ++ prompt)
                      "steps_2000_rank_8")).
Proof.
  apply (evaluate_model_logs string (fun path prompt steps => [path ++ ":" ++ prompt])
           (fun prompt => "/model/steps_2000_rank_8:" ++ prompt) "steps_2000_rank_8").
  intros prompt _. now exists [].
Defined.

(** The evaluation of one record inside its [with] block. *)
Definition evaluated {Image} (first_image : string -> string -> Image)
           (config : Config) : list (event Image) :=
  (WandbInit "flux-lora-sweep-heroicons-11-16-dreambooth-no-lora" "sweep_summary"
   :: logged (first_image (run_model_dir config)) (run_model_dir config)
   ++ [WandbExit])%list.

Lemma for_results_evaluated {Image}
      (pipeline_images : string -> string -> Z -> list Image)
      (train_remote : Config -> result Config)
      (first_image : string -> string -> Image) configs :
  (forall dir prompt, exists more,
      pipeline_images (load_model_path dir) prompt 25%Z = first_image dir prompt :: more) ->
  (forall c, In c configs -> train_remote c = Return c) ->
  forall tail,
  for_results (map train_remote configs ++ tail)%list
    (fun config =>
       with_wandb_init Image "flux-lora-sweep-heroicons-11-16-dreambooth-no-lora"
                       "sweep_summary"
                       (evaluate_model pipeline_images (run_model_dir config)))
  = let (l, r) :=
      for_results tail
        (fun config =>
           with_wandb_init Image "flux-lora-sweep-heroicons-11-16-dreambooth-no-lora"
                           "sweep_summary"
                           (evaluate_model pipeline_images (run_model_dir config))) in
    ((flat_map (evaluated first_image) configs ++ l)%list, r).
Proof.
  intros Hp Ht tail. induction configs as [|c configs IH].
  - cbn. now destruct (for_results tail _).
  - cbn [map List.app for_results flat_map]. rewrite (Ht c) by now left.
    rewrite IH by (intros d Hd; apply Ht; now right).
    unfold with_wandb_init at 1. unfold evaluate_model at 1.
    rewrite (for_results_inference pipeline_images (first_image (run_model_dir c)))
      by (intros prompt _; apply Hp).
    destruct (for_results tail _) as [l r].
    fold (logged (first_image (run_model_dir c)) (run_model_dir c)).
    unfold evaluated at 2. cbn [bind emit List.app].
    now rewrite <- !app_assoc.
Qed.

Lemma train_outcome_zero child config :
  snd (child (train_cmd config)) = 0%Z -> outcome (train child config) = Return config.
Proof.
  intros H. unfold train. now rewrite (_exec_subprocess_zero child _ H).
Qed.

(** [run] never reads [max_train_steps]: whatever value it is given, it
    dispatches the three records with 2000, 3000 and 4000 steps (and rank
    8) of the default sweep, and behaves the same. *)
Theorem run_ignores_max_train_steps (Image : Type)
        (pipeline_images : string -> string -> Z -> list Image)
        (train_remote : Config -> result Config) :
  (forall m m', run pipeline_images train_remote m
                = run pipeline_images train_remote m')
  /\ (forall m, exists rest,
        effects (run pipeline_images train_remote m)
        = TrainMap (generate_sweep_configs SweepConfig_default) :: rest)
  /\ map max_train_steps (generate_sweep_configs SweepConfig_default)
     = [2000; 3000; 4000]%Z
  /\ map rank (generate_sweep_configs SweepConfig_default) = [8; 8; 8]%Z.
Proof.
  split; [reflexivity|]. split; [|split; reflexivity].
  intros m. unfold run. cbn [bind emit].
  destruct (for_results _ _) as [l r]. now exists l.
Qed.

(** When every training subprocess of the sweep exits with status 0 and
    the pipeline yields images, [run] evaluates the records in sweep
    order, each in its own [wandb] run, under the directory name derived
    from the record that [train] returned. *)
Theorem run_evaluates_sweep (Image : Type)
        (pipeline_images : string -> string -> Z -> list Image)
        (first_image : string -> string -> Image)
        (child : list string -> list string * Z) max_train_steps :
  (forall dir prompt, exists more,
      pipeline_images (load_model_path dir) prompt 25%Z = first_image dir prompt :: more) ->
  (forall c, In c (generate_sweep_configs SweepConfig_default) ->
             snd (child (train_cmd c)) = 0%Z) ->
  run pipeline_images (fun c => outcome (train child c)) max_train_steps
  = ((TrainMap (generate_sweep_configs SweepConfig_default)
      :: flat_map (evaluated first_image) (generate_sweep_configs SweepConfig_default))%list,
     Return tt).
Proof.
  intros Hp Hc. unfold run. cbn [bind emit].
  rewrite <- (app_nil_r (map _ (generate_sweep_configs SweepConfig_default))).
  rewrite (for_results_evaluated pipeline_images _ first_image _ Hp)
    by (intros c Hin; now apply train_outcome_zero, Hc).
  cbn [for_results ret]. now rewrite !app_nil_r.
Qed.

Lemma run_evaluates_sweep_witness :
  run (fun path prompt steps => [path ++ ":" ++ prompt])
      (fun c => outcome (train (fun _ => ([], 0%Z)) c)) 250
  = ((TrainMap (generate_sweep_configs SweepConfig_default)
      :: flat_map (evaluated (fun dir prompt => (load_model_path dir ++ ":" ++ prompt)%string))
                  (generate_sweep_configs SweepConfig_default))%list,
     Return tt).
Proof.
  apply (run_evaluates_sweep string (fun path prompt steps => [path ++ ":" ++ prompt])
           (fun dir prompt => load_model_path dir ++ ":" ++ prompt)
           (fun _ => ([], 0%Z)) 250).
  - intros dir prompt. now exists [].
  - reflexivity.
Defined.

(** *** The example buttons of the web form *)

(** The button built for index [idx]: [lambda idx=ii: example_prompts[idx]]. *)
Definition example_button (idx : nat) : result string := index example_prompts idx.

(** The buttons, in the order of [enumerate(example_prompts)]. *)
Definition example_buttons : list (result string) :=
  map example_button (seq 0 (List.length example_prompts)).

(** Each example button yields its own prompt, and [go] called with that
    prompt sends it to the inference call unchanged: no example prompt is
    empty, so none is replaced by the first one. *)
Theorem example_button_then_go (Image : Type)
        (inference_remote : string -> AppConfig -> result (Image * string)) i p :
  nth_error example_prompts i = Some p ->
  nth_error example_buttons i = Some (Return p)
  /\ effects (go inference_remote (Some p))
     = [PrintTextConfig p config; RemoteInference p config].
Proof.
  intros H.
  do 5 (destruct i as [|i];
        [ injection H as <-; split; [reflexivity|];
          unfold go; cbn; reflexivity |]).
  destruct i; discriminate.
Qed.

Lemma example_button_then_go_witness :
  nth_error example_buttons 2
  = Some (Return "oil painting of Heroicon the style flying through space as an astronaut")
  /\ effects (go (fun text _ => Return (text, text))
                 (Some "oil painting of Heroicon the style flying through space as an astronaut"))
     = [ PrintTextConfig
           "oil painting of Heroicon the style flying through space as an astronaut" config;
         RemoteInference
           "oil painting of Heroicon the style flying through space as an astronaut" config ].
Proof.
  apply (example_button_then_go string (fun text _ => Return (text, text)) 2).
  reflexivity.
Defined.

End DreamboothDriver.

(* ================================================================== *)
(** ** More about boltz1.py *)
(* ================================================================== *)

Module Boltz1Facts.
Import Py Os Boltz1.

(** *** Extra arguments *)

(** A string of white space only. *)
Fixpoint blank (s : string) : bool :=
  match s with
  | EmptyString => true
  | String c s' => Shlex.is_whitespace c && blank s'
  end.

Lemma split_blank s : blank s = true -> Shlex.split s = Return [].
Proof.
  unfold Shlex.split. induction s as [|c s IH]; [reflexivity|].
  cbn [blank]. intros H. apply andb_prop in H as [Hc Hs].
  cbn [Shlex.lex]. rewrite Hc. cbn. now apply IH.
Qed.

Lemma split_one_plain w :
  Shlex.plain w = true -> w <> "" -> Shlex.split w = Return [w].
Proof.
  intros Hw Hne. destruct w as [|c w]; [contradiction|].
  cbn [Shlex.plain] in Hw. apply andb_prop in Hw as [Hc Hw].
  destruct (Shlex.plain_char_inv c Hc) as (H1 & H2 & H3).
  unfold Shlex.split. cbn [Shlex.lex]. rewrite H1, H2, H3.
  rewrite <- (StrFacts.append_nil_r w) at 1.
  rewrite (Shlex.lex_word_plain w _ _ _ _ Hw). reflexivity.
Qed.

(** Plain tokens joined by single blanks are split into the same tokens. *)
Lemma split_join_plain toks :
  Forall (fun w => Shlex.plain w = true /\ w <> "") toks ->
  Shlex.split (join " " toks) = Return toks.
Proof.
  induction 1 as [|w toks [Hw Hne] Htoks IH]; [reflexivity|].
  destruct toks as [|w2 toks].
  - cbn. now apply split_one_plain.
  - change (join " " (w :: w2 :: toks)) with (w ++ " " ++ join " " (w2 :: toks)).
    now apply Shlex.split_plain_word.
Qed.

Lemma lex_unclosed_single q : forall esc quoted token,
  mem_char Shlex.squote q = false ->
  Shlex.lex (Shlex.Quote Shlex.squote) esc quoted token q
  = Raise (ValueError "No closing quotation").
Proof.
  induction q as [|c q IH]; intros esc quoted token H; [reflexivity|].
  cbn [mem_char] in H. apply orb_false_elim in H as [Hc Hq].
  cbn [Shlex.lex]. rewrite Ascii.eqb_sym in Hc. rewrite Hc.
  replace (Shlex.is_escape c && Shlex.is_escapedquote Shlex.squote) with false
    by (now rewrite andb_false_r).
  now apply IH.
Qed.

(** With no extra arguments, or with white space only, the predictor is
    run with exactly the six fixed arguments. *)
Theorem boltz1_inference_blank_args zip_bytes predictor boltz_input_yaml args :
  blank args = true ->
  exists rest,
    effects (boltz1_inference zip_bytes predictor boltz_input_yaml args)
    = WriteText (Pathlib.parse "input.yaml") boltz_input_yaml
      :: announce
      :: Run [ "boltz"; "predict"; "input.yaml"; "--cache"; "/models/boltz1";
               "--use_msa_server" ]
      :: rest.
Proof.
  intros H. rewrite (boltz1_inference_unfold _ _ _ _ [] (split_blank _ H)).
  cbv zeta. change (predict_argv []) with
    [ "boltz"; "predict"; "input.yaml"; "--cache"; "/models/boltz1"; "--use_msa_server" ].
  destruct (predictor _) as [status fs].
  destruct (Z.eqb status 0); eexists; reflexivity.
Qed.

Lemma boltz1_inference_blank_args_witness :
  exists rest,
    effects (boltz1_inference (fun _ => []) (fun _ => (0%Z, mkFS (Dir []) []))
                              "version: 1" "")
    = WriteText (Pathlib.parse "input.yaml") "version: 1"
      :: announce
      :: Run [ "boltz"; "predict"; "input.yaml"; "--cache"; "/models/boltz1";
               "--use_msa_server" ]
      :: rest.
Proof.
  apply (boltz1_inference_blank_args (fun _ => [])
           (fun _ => (0%Z, mkFS (Dir []) [])) "version: 1" "").
  reflexivity.
Defined.

(** Plain options joined by blanks reach the predictor one by one, in
    order, after the six fixed arguments. *)
Theorem boltz1_inference_plain_args zip_bytes predictor boltz_input_yaml toks :
  Forall (fun w => Shlex.plain w = true /\ w <> "") toks ->
  exists rest,
    effects (boltz1_inference zip_bytes predictor boltz_input_yaml (join " " toks))
    = WriteText (Pathlib.parse "input.yaml") boltz_input_yaml
      :: announce :: Run (predict_argv toks) :: rest.
Proof.
  intros H. rewrite (boltz1_inference_unfold _ _ _ _ toks (split_join_plain _ H)).
  cbv zeta. destruct (predictor _) as [status fs].
  destruct (Z.eqb status 0); eexists; reflexivity.
Qed.

Lemma boltz1_inference_plain_args_witness :
  exists rest,
    effects (boltz1_inference (fun _ => []) (fun _ => (0%Z, mkFS (Dir []) []))
                              "version: 1"
                              (join " " ["--recycling_steps"; "3"; "--override"]))
    = WriteText (Pathlib.parse "input.yaml") "version: 1"
      :: announce
      :: Run (predict_argv ["--recycling_steps"; "3"; "--override"]) :: rest.
Proof.
  apply (boltz1_inference_plain_args (fun _ => [])
           (fun _ => (0%Z, mkFS (Dir []) [])) "version: 1"
           ["--recycling_steps"; "3"; "--override"]).
  repeat constructor; discriminate.
Defined.

(** An extra-arguments string that opens a single quote (after plain text
    or at its start) and never closes it makes [boltz1_inference] raise
    [ValueError] once [input.yaml] is written; the predictor is not run. *)
Theorem boltz1_inference_unclosed_single_quote
        zip_bytes predictor boltz_input_yaml pre q :
  Shlex.plain pre = true -> mem_char Shlex.squote q = false ->
  boltz1_inference zip_bytes predictor boltz_input_yaml
                   (pre ++ String Shlex.squote q)
  = ([WriteText (Pathlib.parse "input.yaml") boltz_input_yaml],
     Raise (ValueError "No closing quotation")).
Proof.
  intros Hpre Hq. unfold boltz1_inference.
  assert (E : Shlex.split (pre ++ String Shlex.squote q)
              = Raise (ValueError "No closing quotation")).
  { unfold Shlex.split.
    rewrite (Shlex.lex_plain_then_quote pre Shlex.squote q Hpre eq_refl).
    now apply lex_unclosed_single. }
  rewrite E. reflexivity.
Qed.

Lemma boltz1_inference_unclosed_single_quote_witness :
  boltz1_inference (fun _ => []) (fun _ => (0%Z, mkFS (Dir []) []))
                   "version: 1" ("--out=" ++ String Shlex.squote "my dir")
  = ([WriteText (Pathlib.parse "input.yaml") "version: 1"],
     Raise (ValueError "No closing quotation")).
Proof.
  apply (boltz1_inference_unclosed_single_quote (fun _ => [])
           (fun _ => (0%Z, mkFS (Dir []) [])) "version: 1" "--out=" "my dir");
    reflexivity.
Defined.

(** *** Packaging *)

(** The members stored for a directory: its listing, with joined names. *)
Definition stored (n : node) : members :=
  map (fun pc => (join "/" (fst pc), snd pc)) (listing n).

Lemma package_outputs_stored zip_bytes fs output_dir es :
  stat fs output_dir = Some (Dir es) ->
  wf (Dir es) = true ->
  storable (Dir es) = true ->
  package_outputs zip_bytes fs output_dir = Return (zip_bytes (stored (Dir es))).
Proof.
  intros Hstat Hwf Hsto. unfold package_outputs, os_walk. rewrite Hstat.
  rewrite (walk_writes fs output_dir _ Hwf Hsto _ _ []
             (below_root fs output_dir es Hstat)).
  reflexivity.
Qed.

(** A tree without any regular file has no time stamp to refuse. *)
Lemma no_files_storable n :
  wf n = true ->
  (forall p c, lookup n p <> Some (File c)) -> storable n = true.
Proof.
  induction n as [c0|es IH] using OsFacts.node_ind'; intros Hwf Hnone.
  - now destruct (Hnone [] c0).
  - apply OsFacts.wf_Dir_inv in Hwf as [Hnd Hes]. rewrite Forall_forall in IH.
    cbn [storable]. apply forallb_forall. intros [name child] Hin.
    destruct (Hes _ _ Hin) as [_ Hw].
    apply (IH _ Hin Hw). intros p c Hl. apply (Hnone (name :: p) c).
    cbn [lookup]. now rewrite (OsFacts.assoc_In _ _ _ Hnd Hin).
Qed.

(** When [output_dir] names no directory (nothing, or a regular file),
    [package_outputs] raises nothing and returns the archive without
    members. *)
Theorem package_outputs_no_directory zip_bytes fs output_dir :
  (forall es, stat fs output_dir <> Some (Dir es)) ->
  package_outputs zip_bytes fs output_dir = Return (zip_bytes []).
Proof.
  intros H. unfold package_outputs, os_walk.
  destruct (stat fs output_dir) as [[c|es]|]; try reflexivity.
  now destruct (H es).
Qed.

Lemma package_outputs_no_directory_witness :
  package_outputs contents sample_fs "boltz_results_other"
  = Return (contents []).
Proof.
  apply (package_outputs_no_directory contents sample_fs
           "boltz_results_other").
  intros es. discriminate.
Defined.



(** Directories are not stored: when no path below the directory leads to
    a regular file (it is empty, or holds only directories), the archive
    has no members. *)
Theorem package_outputs_no_files zip_bytes fs output_dir es :
  stat fs output_dir = Some (Dir es) ->
  wf (Dir es) = true ->
  (forall p c, lookup (Dir es) p <> Some (File c)) ->
  package_outputs zip_bytes fs output_dir = Return (zip_bytes []).
Proof.
  intros Hstat Hwf Hnone.
  rewrite (package_outputs_stored _ _ _ _ Hstat Hwf
             (no_files_storable _ Hwf Hnone)). unfold stored.
  destruct (listing (Dir es)) as [|[p c] l] eqn:E; [reflexivity|].
  exfalso. apply (Hnone p c).
  apply (OsFacts.listing_lookup _ Hwf p c). rewrite E. now left.
Qed.

(** A directory that holds only an empty directory tree. *)
Definition hollow_fs : FS :=
  mkFS (Dir [("boltz_results_input", Dir [("msa", Dir []); ("processed", Dir [("x", Dir [])])])]) [].

Lemma package_outputs_no_files_witness :
  package_outputs contents hollow_fs "boltz_results_input"
  = Return [].
Proof.
  apply (package_outputs_no_files contents hollow_fs
           "boltz_results_input"
           [("msa", Dir []); ("processed", Dir [("x", Dir [])])]);
    try reflexivity.
  intros p c Hl.
  assert (H : In (p, c) (listing (Dir [("msa", Dir []); ("processed", Dir [("x", Dir [])])]))).
  { apply (OsFacts.listing_lookup
             (Dir [("msa", Dir []); ("processed", Dir [("x", Dir [])])]) eq_refl).
    split; [|exact Hl].
    intros ->. discriminate. }
  exact H.
Defined.

(** *** The result of [boltz1_inference] *)

(** When the predictor exits with status 0 and has left a directory
    [boltz_results_input] in the working directory, of regular files and
    directories whose files have modification years from 1980 to 2107,
    [boltz1_inference] returns the archive of exactly the files below
    that directory. *)
Theorem boltz1_inference_returns_archive
        zip_bytes predictor boltz_input_yaml args toks fs es :
  Shlex.split args = Return toks ->
  predictor (predict_argv toks) = (0%Z, fs) ->
  stat fs "boltz_results_input" = Some (Dir es) ->
  wf (Dir es) = true ->
  storable (Dir es) = true ->
  outcome (boltz1_inference zip_bytes predictor boltz_input_yaml args)
  = Return (zip_bytes (stored (Dir es)))
  /\ forall name data,
       In (name, data) (stored (Dir es))
       <-> exists p, name = join "/" p /\ lookup (Dir es) p = Some (File data).
Proof.
  intros Hsplit Hpred Hstat Hwf Hsto. split.
  - rewrite (boltz1_inference_unfold _ _ _ _ _ Hsplit). cbv zeta.
    rewrite Hpred. cbn [Z.eqb outcome snd].
    now apply package_outputs_stored.
  - intros name data. unfold stored. rewrite in_map_iff. split.
    + intros ([p c] & E & Hin). cbn [fst snd] in E. injection E as <- <-.
      exists p. split; [reflexivity|].
      now apply (OsFacts.listing_lookup _ Hwf) in Hin as [_ Hin].
    + intros (p & -> & Hl). exists (p, data). split; [reflexivity|].
      apply (OsFacts.listing_lookup _ Hwf). split; [|assumption].
      intros ->. discriminate.
Qed.

Lemma boltz1_inference_returns_archive_witness :
  outcome (boltz1_inference contents (fun _ => (0%Z, sample_fs))
                            "version: 1" "--sampling_steps 10")
  = Return (contents (stored (Dir sample_results)))
  /\ forall name data,
       In (name, data) (stored (Dir sample_results))
       <-> exists p, name = join "/" p
                     /\ lookup (Dir sample_results) p = Some (File data).
Proof.
  apply (boltz1_inference_returns_archive contents
           (fun _ => (0%Z, sample_fs)) "version: 1" "--sampling_steps 10"
           ["--sampling_steps"; "10"] sample_fs sample_results); reflexivity.
Defined.

(** When the predictor exits with status 0 but has left no directory
    [boltz_results_input], [boltz1_inference] still returns normally, with
    the archive without members. *)
Theorem boltz1_inference_no_results
        zip_bytes predictor boltz_input_yaml args toks fs :
  Shlex.split args = Return toks ->
  predictor (predict_argv toks) = (0%Z, fs) ->
  (forall es, stat fs "boltz_results_input" <> Some (Dir es)) ->
  outcome (boltz1_inference zip_bytes predictor boltz_input_yaml args)
  = Return (zip_bytes []).
Proof.
  intros Hsplit Hpred Hstat.
  rewrite (boltz1_inference_unfold _ _ _ _ _ Hsplit). cbv zeta.
  rewrite Hpred. cbn [Z.eqb outcome snd].
  unfold package_outputs, os_walk.
  destruct (stat fs "boltz_results_input") as [[c|es]|]; try reflexivity.
  now destruct (Hstat es).
Qed.

Lemma boltz1_inference_no_results_witness :
  outcome (boltz1_inference contents
             (fun _ => (0%Z, mkFS (Dir [("input.yaml", File (mkStat 2024 420, []))]) []))
             "version: 1" "")
  = Return [].
Proof.
  apply (boltz1_inference_no_results contents
           (fun _ => (0%Z, mkFS (Dir [("input.yaml", File (mkStat 2024 420, []))]) []))
           "version: 1" "" [] (mkFS (Dir [("input.yaml", File (mkStat 2024 420, []))]) []));
    try reflexivity.
  intros es. discriminate.
Defined.

(** *** The entry point *)

Definition inference_args (e : event) : option string :=
  match e with Boltz1InferenceRemote _ args => Some args | _ => None end.

(** [main] never hands its [args] to the remote function: its run is the
    same for every [args], and every remote inference call it makes has
    the empty extra-arguments string. *)
Theorem main_ignores_args cwd read_text download_model_remote
        boltz1_inference_remote force_download input out_dir :
  (forall args args',
     main cwd read_text download_model_remote boltz1_inference_remote
          force_download input args out_dir
     = main cwd read_text download_model_remote boltz1_inference_remote
            force_download input args' out_dir)
  /\ forall args,
       Forall (fun e => inference_args e = None \/ inference_args e = Some "")
              (effects (main cwd read_text download_model_remote
                             boltz1_inference_remote force_download input
                             args out_dir)).
Proof.
  split; [reflexivity|]. intros args. unfold main. cbn [bind emit lift].
  destruct (download_model_remote force_download) as [[]|e];
    [|cbn; repeat constructor].
  destruct input as [s|]; [|cbn; repeat constructor]. cbn [Pathlib.Path_of is_None].
  destruct (read_text _) as [yaml|e]; [|cbn; repeat constructor].
  destruct (boltz1_inference_remote yaml "") as [output|e]; cbn;
    repeat (constructor; [cbn; tauto|]); constructor.
Qed.

(** The path of the archive for an input whose resolved name is [name]. *)
Definition archive_path (name : string) : Pathlib.Path :=
  Pathlib.mkPath "" ["boltz_" ++ name ++ "_result.zip"].

Lemma parse_archive_name name :
  mem_char "/" name = false ->
  Pathlib.parse ("boltz_" ++ name ++ "_result.zip") = archive_path name.
Proof.
  intros H. apply PathFacts.parse_component.
  - rewrite !StrFacts.mem_char_app, H. reflexivity.
  - discriminate.
  - discriminate.
Qed.

(** When the download, the read of the input file and the remote
    inference succeed, [main] writes the returned bytes to one file, the
    entry [boltz_<name>_result.zip] of the working directory, where
    [<name>] is the last component of the resolved input path, extension
    included; these are all its effects. *)
Theorem main_writes_archive cwd read_text download_model_remote
        boltz1_inference_remote force_download s args out_dir input_yaml output :
  Forall OsFacts.slash_free cwd ->
  download_model_remote force_download = Return tt ->
  read_text (Pathlib.resolve cwd (Pathlib.parse s)) = Return input_yaml ->
  boltz1_inference_remote input_yaml "" = Return output ->
  let input1 := Pathlib.resolve cwd (Pathlib.parse s) in
  main cwd read_text download_model_remote boltz1_inference_remote
       force_download (Some s) args out_dir
  = ([ Print "🧬 loading model remotely";
       DownloadModelRemote force_download;
       ReadText input1;
       Print ("🧬 running boltz with input from " ++ s);
       Boltz1InferenceRemote input_yaml "";
       Mkdir (Pathlib.mkPath "" []);
       Print ("🧬 writing output to " ++ "boltz_" ++ Pathlib.name input1 ++ "_result.zip");
       WriteBytes (archive_path (Pathlib.name input1)) output;
       Print "DONE! 🎉" ],
     Return tt).
Proof.
  intros Hcwd Hd Hr Hi. cbv zeta. unfold main.
  rewrite Hd. cbn [Pathlib.Path_of is_None format_input lift bind emit ret].
  rewrite Hr, Hi. cbn [lift bind emit ret List.app].
  rewrite (parse_archive_name _ (PathFacts.resolve_name_slash_free cwd s Hcwd)).
  unfold archive_path at 1 2. cbn [Pathlib.parent Pathlib.root Pathlib.parts removelast].
  rewrite PathFacts.str_component by discriminate.
  reflexivity.
Qed.

Lemma main_writes_archive_witness :
  main ["home"; "user"] (fun _ => Return "version: 1") (fun _ => Return tt)
       (fun _ _ => Return [Byte.x50; Byte.x4b])
       false (Some "data/../prot.yaml") "--sampling_steps 10" "/tmp/out"
  = ([ Print "🧬 loading model remotely";
       DownloadModelRemote false;
       ReadText (Pathlib.mkPath "/" ["home"; "user"; "prot.yaml"]);
       Print "🧬 running boltz with input from data/../prot.yaml";
       Boltz1InferenceRemote "version: 1" "";
       Mkdir (Pathlib.mkPath "" []);
       Print "🧬 writing output to boltz_prot.yaml_result.zip";
       WriteBytes (archive_path "prot.yaml") [Byte.x50; Byte.x4b];
       Print "DONE! 🎉" ],
     Return tt).
Proof.
  apply (main_writes_archive ["home"; "user"] (fun _ => Return "version: 1")
           (fun _ => Return tt) (fun _ _ => Return [Byte.x50; Byte.x4b])
           false "data/../prot.yaml" "--sampling_steps 10" "/tmp/out"
           "version: 1" [Byte.x50; Byte.x4b]);
    try reflexivity.
  repeat constructor.
Defined.

(** [main] writes a file only at the end of a run in which everything
    succeeded: whenever its effects hold a write, the bytes written are
    those a remote inference call returned, and [main] returns normally. *)
Theorem main_writes_only_on_success cwd read_text download_model_remote
        boltz1_inference_remote force_download input args out_dir path data :
  In (WriteBytes path data)
     (effects (main cwd read_text download_model_remote boltz1_inference_remote
                    force_download input args out_dir)) ->
  outcome (main cwd read_text download_model_remote boltz1_inference_remote
                force_download input args out_dir) = Return tt
  /\ exists input_yaml, boltz1_inference_remote input_yaml "" = Return data.
Proof.
  unfold main. cbn [bind emit lift].
  destruct (download_model_remote force_download) as [[]|e];
    [|cbn; intros [H|[H|[]]]; discriminate].
  destruct input as [s|]; [|cbn; intros [H|[H|[]]]; discriminate].
  cbn [Pathlib.Path_of is_None].
  destruct (read_text _) as [yaml|e];
    [|cbn; intros [H|[H|[H|[]]]]; discriminate].
  destruct (boltz1_inference_remote yaml "") as [output|e] eqn:E; cbn.
  - intros H. split; [reflexivity|]. exists yaml. rewrite E.
    repeat (destruct H as [H|H]; [try discriminate|]).
    + now injection H as _ ->.
    + destruct H.
  - intros H. repeat (destruct H as [H|H]; [discriminate|]). destruct H.
Qed.

Lemma main_writes_only_on_success_witness :
  outcome (main ["home"; "user"] (fun _ => Return "version: 1") (fun _ => Return tt)
                (fun _ _ => Return [Byte.x50; Byte.x4b])
                false (Some "prot.yaml") "" "./")
  = Return tt
  /\ exists input_yaml,
       (fun _ _ : string => @Return bytes [Byte.x50; Byte.x4b]) input_yaml ""
       = Return [Byte.x50; Byte.x4b].
Proof.
  apply (main_writes_only_on_success ["home"; "user"] (fun _ => Return "version: 1")
           (fun _ => Return tt) (fun _ _ => Return [Byte.x50; Byte.x4b])
           false (Some "prot.yaml") "" "./" (archive_path "prot.yaml")).
  vm_compute. tauto.
Defined.

(** When the input file cannot be read, [main] raises the exception of
    the read right after the download: no remote inference is started and
    nothing is written. *)
Theorem main_unreadable_input cwd read_text download_model_remote
        boltz1_inference_remote force_download s args out_dir e :
  download_model_remote force_download = Return tt ->
  read_text (Pathlib.resolve cwd (Pathlib.parse s)) = Raise e ->
  main cwd read_text download_model_remote boltz1_inference_remote
       force_download (Some s) args out_dir
  = ([ Print "🧬 loading model remotely";
       DownloadModelRemote force_download;
       ReadText (Pathlib.resolve cwd (Pathlib.parse s)) ],
     Raise e).
Proof.
  intros Hd Hr. unfold main.
  rewrite Hd. cbn [Pathlib.Path_of is_None lift bind emit ret].
  rewrite Hr. reflexivity.
Qed.

Lemma main_unreadable_input_witness :
  main ["home"; "user"] (fun _ => Raise (FileNotFoundError "/home/user/missing.yaml"))
       (fun _ => Return tt) (fun _ _ => Return []) false (Some "missing.yaml") "" "./"
  = ([ Print "🧬 loading model remotely";
       DownloadModelRemote false;
       ReadText (Pathlib.resolve ["home"; "user"] (Pathlib.parse "missing.yaml")) ],
     Raise (FileNotFoundError "/home/user/missing.yaml")).
Proof.
  apply (main_unreadable_input ["home"; "user"]
           (fun _ => Raise (FileNotFoundError "/home/user/missing.yaml"))
           (fun _ => Return tt) (fun _ _ => Return []) false "missing.yaml" "" "./");
    reflexivity.
Defined.

End Boltz1Facts.
